(** * CondoScout: chat session lifecycle and grounding normalisation

    A shallow embedding of the logic of [services/geminiService.ts] and of
    the session handling of [App.tsx], with the data model of [types.ts].

    Conventions of the embedding.
    - A JavaScript string is a [string]; one character stands for one code
      unit, so [String.length] is [.length] and [substring 0 n] is
      [.substring(0, n)].
    - An optional field [f?: T] is an [option T]; [undefined] is [None].
    - A [number] holding a time stamp ([Date.now()]) is a [Z].
    - [uuidv4()] and [Date.now()] are the environment's: the values they
      return are arguments of the operation that calls them.
    - React state is a record; [setX(v)] is a field update and
      [setX(prev => f prev)] applies [f] to the field. *)

From Stdlib Require Import List String Ascii ZArith Bool Lia Permutation.
Import ListNotations.
Local Open Scope string_scope.
Local Open Scope Z_scope.

(** ** JavaScript helpers *)

Module Js.

(** Truthiness of a [string | undefined] value: [undefined] and the empty
    string are falsy. *)
Definition truthy (o : option string) : bool :=
  match o with
  | Some s => negb (s =? "")%string
  | None => false
  end.

(** [a || b] on [string | undefined] operands. *)
Definition or_else (a b : option string) : option string :=
  if truthy a then a else b.

(** [a || "literal"]: the right operand is a string, so is the result
    whenever the left one is falsy. *)
Definition or_default (a : option string) (d : string) : string :=
  match a with
  | Some s => if (s =? "")%string then d else s
  | None => d
  end.

(** [xs?.[0]] on an optional array. *)
Definition first {A : Type} (xs : option (list A)) : option A :=
  match xs with
  | Some (x :: _) => Some x
  | _ => None
  end.

(** [o?.f] where [f] is itself optional. *)
Definition chain {A B : Type} (o : option A) (f : A -> option B) : option B :=
  match o with
  | Some a => f a
  | None => None
  end.

(** [Array.prototype.findIndex]: index of the first element satisfying
    [p], counted from [i]; [-1] when there is none. *)
Fixpoint findIndexFrom {A : Type} (i : Z) (p : A -> bool) (a : list A) : Z :=
  match a with
  | [] => -1
  | x :: r => if p x then i else findIndexFrom (i + 1) p r
  end.

Definition findIndex {A : Type} (p : A -> bool) (a : list A) : Z :=
  findIndexFrom 0 p a.

(** [Array.prototype.filter] with the three-argument callback
    [(value, index, array)]. *)
Fixpoint filterFrom {A : Type} (i : Z) (f : A -> Z -> list A -> bool)
    (whole rest : list A) : list A :=
  match rest with
  | [] => []
  | v :: r =>
      if f v i whole then v :: filterFrom (i + 1) f whole r
      else filterFrom (i + 1) f whole r
  end.

Definition filter3 {A : Type} (f : A -> Z -> list A -> bool) (a : list A) : list A :=
  filterFrom 0 f a a.

(** [Array.prototype.sort(cmp)]: a stable sort; [cmp a b > 0] puts [a]
    after [b]. *)
Fixpoint insert {A : Type} (cmp : A -> A -> Z) (x : A) (l : list A) : list A :=
  match l with
  | [] => [x]
  | y :: r => if 0 <? cmp x y then y :: insert cmp x r else x :: y :: r
  end.

Definition sort {A : Type} (cmp : A -> A -> Z) (l : list A) : list A :=
  fold_right (insert cmp) [] l.

(** White space removed by [String.prototype.trim], among the code units
    the string model has: TAB, LF, VT, FF, CR, SPACE and NBSP. *)
Definition isWhiteSpace (c : ascii) : bool :=
  let n := nat_of_ascii c in
  (Nat.eqb n 9 || Nat.eqb n 10 || Nat.eqb n 11 || Nat.eqb n 12
   || Nat.eqb n 13 || Nat.eqb n 32 || Nat.eqb n 160)%bool.

Fixpoint trimStart (s : string) : string :=
  match s with
  | EmptyString => EmptyString
  | String c r => if isWhiteSpace c then trimStart r else s
  end.

Fixpoint trimEnd (s : string) : string :=
  match s with
  | EmptyString => EmptyString
  | String c r =>
      match trimEnd r with
      | EmptyString => if isWhiteSpace c then EmptyString else String c EmptyString
      | r' => String c r'
      end
  end.

Definition trim (s : string) : string := trimEnd (trimStart s).

End Js.

(** ** Data model ([types.ts]) *)

(** Coordinates are passed along and never computed with. *)
Record Location := { latitude : Z; longitude : Z }.

Record ReviewSnippet := { content : option string }.

Record PlaceAnswerSources := { reviewSnippets : option (list ReviewSnippet) }.

Record WebChunk := { web_uri : option string; web_title : option string }.

Record MapsChunk := {
  googleMapsUri : option string;
  maps_uri : option string;
  maps_title : option string;
  maps_placeId : option string;
  maps_address : option string;
  placeAnswerSources : option PlaceAnswerSources
}.

Record GroundingChunk := { web : option WebChunk; maps : option MapsChunk }.

Record PlaceData := {
  title : string;
  uri : string;
  address : option string;
  description : option string;
  placeId : option string
}.

Inductive Role := user_role | model_role.

Record Message := {
  msg_id : string;
  role : Role;
  text : string;
  places : option (list PlaceData);
  isThinking : option bool
}.

Record ChatSession := {
  id : string;
  session_title : string;
  messages : list Message;
  createdAt : Z;
  lastUpdated : Z
}.

Record User := {
  user_id : string;
  user_name : string;
  user_email : string;
  picture : string
}.

(** ** The provider's side ([@google/genai]) *)

(** [Content], the history entry of the SDK: a role and its parts. *)
Record Part := { part_text : string }.
Record Content := { content_role : Role; parts : list Part }.

(** The parameters of [ai.chats.create]. *)
Record ChatParams := {
  model : string;
  systemInstruction : string;
  tools : list string;
  history : list Content
}.

(** A [Chat] is the object [ai.chats.create] builds from its parameters. *)
Record Chat := { chat_params : ChatParams }.

Definition chats_create (p : ChatParams) : Chat := {| chat_params := p |}.

Record GroundingMetadata := { groundingChunks : option (list GroundingChunk) }.
Record Candidate := { groundingMetadata : option GroundingMetadata }.

(** [GenerateContentResponse], as far as the service reads it. *)
Record GenerateContentResponse := {
  response_text : option string;
  candidates : option (list Candidate)
}.

(** What a promise settles to. *)
Inductive Settled (E A : Type) :=
| Fulfilled (a : A)
| Rejected (e : E).
Arguments Fulfilled {E A} a.
Arguments Rejected {E A} e.

(** What the promise of [sendMessageToGemini] can reject with: the error
    the function throws itself, or one coming from the provider. *)
Inductive Error :=
| FailedToInitialize
| ProviderError (what : string).

(** [chat.sendMessage({message})]: the transport. It answers or rejects,
    and leaves the chat with whatever history the provider keeps. *)
Class ChatService := {
  sendMessage : Chat -> string -> Settled string GenerateContentResponse * Chat
}.

(** ** [services/geminiService.ts] *)

Module GeminiService.

Definition DQ : string := String (ascii_of_nat 34) EmptyString.
Definition LF : string := String (ascii_of_nat 10) EmptyString.

Definition SYSTEM_INSTRUCTION : string :=
  "You are Royce, an elite Real Estate and Lifestyle Concierge." ++ LF ++
  "Your mission is to assist users in discovering the perfect condominiums, apartments, or hotels tailored to their specific lifestyle and needs." ++ LF ++
  LF ++
  "RULES:" ++ LF ++
  "1. You MUST use the 'googleMaps' tool to find real-world locations that match the user's criteria." ++ LF ++
  "2. When a user specifies a budget (e.g., " ++ DQ ++ "20000 THB" ++ DQ ++ "), try to find places that likely fit that category or politely explain you are showing the best matches in the area." ++ LF ++
  "3. Provide a sophisticated, concise summary of *why* you selected these properties." ++ LF ++
  "4. If the user asks for " ++ DQ ++ "apartments" ++ DQ ++ " or " ++ DQ ++ "condos" ++ DQ ++ ", look for residential buildings or serviced apartments." ++ LF ++
  "5. If the user asks for " ++ DQ ++ "hotels" ++ DQ ++ ", look for hotels." ++ LF ++
  "6. Always include the location context (e.g., " ++ DQ ++ "located near the BTS" ++ DQ ++ ", " ++ DQ ++ "in the heart of Siam" ++ DQ ++ ")." ++ LF ++
  "7. Tone: Professional, polite, knowledgeable, and slightly upscale (like a high-end concierge)." ++ LF ++
  LF ++
  "When you return places, the UI will display them as cards with a SATELLITE MAP VIEW of the location. " ++ LF ++
  "Ensure the places you find are specific buildings or hotels so the map pin is accurate.".

Definition chatParams (h : list Content) : ChatParams :=
  {| model := "gemini-2.5-flash";
     systemInstruction := SYSTEM_INSTRUCTION;
     tools := ["googleMaps"];
     history := h |}.

(** The module's [let chatSession: Chat | null] is the state every
    function below takes and gives back. *)
Definition startNewChat (chatSession : option Chat) : option Chat :=
  Some (chats_create (chatParams [])).

(** [!msg.isThinking && msg.id !== 'welcome'] *)
Definition keptInHistory (msg : Message) : bool :=
  negb (match isThinking msg with Some b => b | None => false end)
  && negb (msg_id msg =? "welcome")%string.

Definition toContent (msg : Message) : Content :=
  {| content_role := role msg; parts := [ {| part_text := text msg |} ] |}.

Definition validHistory (history : list Message) : list Content :=
  map toContent (filter keptInHistory history).

Definition resumeChat (history : list Message) (chatSession : option Chat)
  : option Chat :=
  Some (chats_create (chatParams (validHistory history))).

(** The body of the [forEach] callback: the record the chunk pushes, if
    it pushes one. *)
Definition placeOfChunk (chunk : GroundingChunk) : option PlaceData :=
  match maps chunk with
  | Some mapData =>
      let uri := Js.or_default
                   (Js.or_else (maps_uri mapData) (googleMapsUri mapData)) "" in
      match maps_title mapData with
      | Some t =>
          if negb (t =? "")%string && negb (uri =? "")%string then
            let snippet :=
              Js.chain (Js.first (Js.chain (placeAnswerSources mapData)
                                           reviewSnippets))
                       content in
            Some {| title := t;
                    uri := uri;
                    placeId := maps_placeId mapData;
                    description := snippet;
                    address := maps_address mapData |}
          else None
      | None => None
      end
  | None => None
  end.

(** [chunks.forEach(chunk => ... places.push(...))] *)
Definition extractPlaces (chunks : list GroundingChunk) : list PlaceData :=
  fold_left
    (fun places chunk =>
       match placeOfChunk chunk with
       | Some p => (places ++ [p])%list
       | None => places
       end)
    chunks [].

(** [places.filter((v, i, a) => a.findIndex(t => t.title === v.title) === i)] *)
Definition uniquePlaces (places : list PlaceData) : list PlaceData :=
  Js.filter3
    (fun v i a => Js.findIndex (fun t => (title t =? title v)%string) a =? i)
    places.

(** The place extraction of [sendMessageToGemini], from the chunk array
    the response carries ([undefined]: no chunks). *)
Definition groundingNormalizer (chunks : option (list GroundingChunk))
  : list PlaceData :=
  uniquePlaces (match chunks with
                | Some cs => extractPlaces cs
                | None => []
                end).

Record Reply := { reply_text : string; reply_places : list PlaceData }.

Definition DEFAULT_TEXT : string := "I've curated a list of properties for you:".

Definition APOLOGY : string :=
  "I apologize, but I am unable to access the property database at this moment. Please try again shortly.".

(** [result.candidates?.[0]?.groundingMetadata?.groundingChunks] *)
Definition chunksOf (result : GenerateContentResponse)
  : option (list GroundingChunk) :=
  Js.chain (Js.chain (Js.first (candidates result)) groundingMetadata)
           groundingChunks.

(** The promise [sendMessageToGemini] returns settles to a reply or to an
    error; the second component is [chatSession] afterwards.
    [userLocation] is accepted and not used. *)
Definition sendMessageToGemini `{ChatService}
    (message : string) (userLocation : option Location)
    (chatSession : option Chat) : Settled Error Reply * option Chat :=
  let chatSession :=
    match chatSession with
    | None => startNewChat chatSession
    | Some _ => chatSession
    end in
  match chatSession with
  | None => (Rejected FailedToInitialize, chatSession)
  | Some chat =>
      match sendMessage chat message with
      | (Fulfilled result, chat') =>
          (Fulfilled
             {| reply_text := Js.or_default (response_text result) DEFAULT_TEXT;
                reply_places := groundingNormalizer (chunksOf result) |},
           Some chat')
      | (Rejected error, chat') =>
          (Fulfilled {| reply_text := APOLOGY; reply_places := [] |},
           Some chat')
      end
  end.

End GeminiService.

(** ** Notions the statements use *)

(** [Subseq l1 l2]: [l1] is [l2] with some elements left out, the others in
    their order. *)
Inductive Subseq {A : Type} : list A -> list A -> Prop :=
| Subseq_nil : Subseq [] []
| Subseq_keep x l1 l2 : Subseq l1 l2 -> Subseq (x :: l1) (x :: l2)
| Subseq_drop x l1 l2 : Subseq l1 l2 -> Subseq l1 (x :: l2).

(** [Without P l k]: [k] is [l] with exactly the elements satisfying [P]
    left out, the others in their order. *)
Inductive Without {A : Type} (P : A -> Prop) : list A -> list A -> Prop :=
| Without_nil : Without P [] []
| Without_drop x l k : P x -> Without P l k -> Without P (x :: l) k
| Without_keep x l k : ~ P x -> Without P l k -> Without P (x :: l) (x :: k).

(** The records the chunks of a list carry, in the order of the chunks. *)
Definition recordsOf (chunks : list GroundingChunk) : list PlaceData :=
  flat_map (fun chunk =>
              match GeminiService.placeOfChunk chunk with
              | Some p => [p]
              | None => []
              end) chunks.

(** Deduplication in the spec's words: walk the records in order and keep one
    exactly when its title has not been seen before. *)
Fixpoint firstOccurrences (seen : list string) (l : list PlaceData)
  : list PlaceData :=
  match l with
  | [] => []
  | v :: r =>
      if existsb (fun t => (t =? title v)%string) seen
      then firstOccurrences seen r
      else v :: firstOccurrences (title v :: seen) r
  end.

(** [JSON.parse] on a stored blob, read at the type the application gives
    it: a list of sessions, or a [SyntaxError] ([None]). *)
Class JsonParser := {
  JSON_parse : string -> option (list ChatSession)
}.

(** ** [App.tsx]: the session store and the turn handler *)

Module App.

Import GeminiService.

(** The component's state, with the service module's [chatSession]. *)
Record AppState := {
  user : option User;
  isGuest : bool;
  sessions : list ChatSession;
  currentSessionId : option string;
  inputText : string;
  isLoading : bool;
  location : option Location;
  isSidebarOpen : bool;
  isMobile : bool;
  isDropdownOpen : bool;
  chatSession : option Chat
}.

Definition setUser (v : option User) (st : AppState) : AppState :=
  {| user := v; isGuest := isGuest st; sessions := sessions st;
     currentSessionId := currentSessionId st; inputText := inputText st;
     isLoading := isLoading st; location := location st;
     isSidebarOpen := isSidebarOpen st; isMobile := isMobile st;
     isDropdownOpen := isDropdownOpen st; chatSession := chatSession st |}.

Definition setIsGuest (v : bool) (st : AppState) : AppState :=
  {| user := user st; isGuest := v; sessions := sessions st;
     currentSessionId := currentSessionId st; inputText := inputText st;
     isLoading := isLoading st; location := location st;
     isSidebarOpen := isSidebarOpen st; isMobile := isMobile st;
     isDropdownOpen := isDropdownOpen st; chatSession := chatSession st |}.

Definition setSessions (f : list ChatSession -> list ChatSession)
    (st : AppState) : AppState :=
  {| user := user st; isGuest := isGuest st; sessions := f (sessions st);
     currentSessionId := currentSessionId st; inputText := inputText st;
     isLoading := isLoading st; location := location st;
     isSidebarOpen := isSidebarOpen st; isMobile := isMobile st;
     isDropdownOpen := isDropdownOpen st; chatSession := chatSession st |}.

Definition setCurrentSessionId (v : option string) (st : AppState) : AppState :=
  {| user := user st; isGuest := isGuest st; sessions := sessions st;
     currentSessionId := v; inputText := inputText st;
     isLoading := isLoading st; location := location st;
     isSidebarOpen := isSidebarOpen st; isMobile := isMobile st;
     isDropdownOpen := isDropdownOpen st; chatSession := chatSession st |}.

Definition setInputText (v : string) (st : AppState) : AppState :=
  {| user := user st; isGuest := isGuest st; sessions := sessions st;
     currentSessionId := currentSessionId st; inputText := v;
     isLoading := isLoading st; location := location st;
     isSidebarOpen := isSidebarOpen st; isMobile := isMobile st;
     isDropdownOpen := isDropdownOpen st; chatSession := chatSession st |}.

Definition setIsLoading (v : bool) (st : AppState) : AppState :=
  {| user := user st; isGuest := isGuest st; sessions := sessions st;
     currentSessionId := currentSessionId st; inputText := inputText st;
     isLoading := v; location := location st;
     isSidebarOpen := isSidebarOpen st; isMobile := isMobile st;
     isDropdownOpen := isDropdownOpen st; chatSession := chatSession st |}.

Definition setIsSidebarOpen (v : bool) (st : AppState) : AppState :=
  {| user := user st; isGuest := isGuest st; sessions := sessions st;
     currentSessionId := currentSessionId st; inputText := inputText st;
     isLoading := isLoading st; location := location st;
     isSidebarOpen := v; isMobile := isMobile st;
     isDropdownOpen := isDropdownOpen st; chatSession := chatSession st |}.

Definition setIsDropdownOpen (v : bool) (st : AppState) : AppState :=
  {| user := user st; isGuest := isGuest st; sessions := sessions st;
     currentSessionId := currentSessionId st; inputText := inputText st;
     isLoading := isLoading st; location := location st;
     isSidebarOpen := isSidebarOpen st; isMobile := isMobile st;
     isDropdownOpen := v; chatSession := chatSession st |}.

(** The service's functions act on the [chatSession] component. *)
Definition withChat (f : option Chat -> option Chat) (st : AppState) : AppState :=
  {| user := user st; isGuest := isGuest st; sessions := sessions st;
     currentSessionId := currentSessionId st; inputText := inputText st;
     isLoading := isLoading st; location := location st;
     isSidebarOpen := isSidebarOpen st; isMobile := isMobile st;
     isDropdownOpen := isDropdownOpen st; chatSession := f (chatSession st) |}.

(** The state [useState] starts from. *)
Definition initialState (mobile : bool) : AppState :=
  {| user := None; isGuest := false; sessions := [];
     currentSessionId := None; inputText := "";
     isLoading := false; location := None;
     isSidebarOpen := true; isMobile := mobile;
     isDropdownOpen := false; chatSession := None |}.

(** [session.id === currentSessionId], the latter a [string | null]. *)
Definition isCurrent (sid : string) (cur : option string) : bool :=
  match cur with
  | Some c => (sid =? c)%string
  | None => false
  end.

(** The wave emoji the welcome text opens with, as UTF-8. *)
Definition WAVE : string :=
  String (ascii_of_nat 240) (String (ascii_of_nat 159)
    (String (ascii_of_nat 145) (String (ascii_of_nat 139) EmptyString))).

Definition welcomeMsg : Message :=
  {| msg_id := "welcome";
     role := model_role;
     text := WAVE ++ " Hello, I'm **Royce**." ++ LF ++ LF ++
             "I am your personal real estate concierge. I'll help you find condominiums, apartments, or luxury hotels." ++ LF ++ LF ++
             "*" ++ DQ ++ "Show me some 1-bedroom apartments in Sukhumvit near the station." ++ DQ ++ "*";
     places := Some [];
     isThinking := None |}.

(** The session [createNewSession] builds; [t0] and [t1] are its two
    readings of the clock. *)
Definition newSession (newId : string) (t0 t1 : Z) : ChatSession :=
  {| id := newId;
     session_title := "New Search";
     messages := [welcomeMsg];
     createdAt := t0;
     lastUpdated := t1 |}.

Definition createNewSession (newId : string) (t0 t1 : Z) (st : AppState)
  : AppState :=
  let st := setSessions (fun prev => newSession newId t0 t1 :: prev) st in
  let st := setCurrentSessionId (Some newId) st in
  let st := withChat startNewChat st in
  if isMobile st then setIsSidebarOpen false st else st.

(** [(a, b) => b.lastUpdated - a.lastUpdated] *)
Definition byLastUpdatedDesc (a b : ChatSession) : Z :=
  lastUpdated b - lastUpdated a.

(** [parsed.sort] sorts the array that [setSessions(parsed)] has just
    stored, so the state holds the sorted list. A falsy [jsonString]
    ([null] or the empty string) is the no-data case. *)
Definition parseAndLoadSessions `{JsonParser}
    (jsonString : option string) (newId : string) (t0 t1 : Z)
    (st : AppState) : AppState :=
  if Js.truthy jsonString then
    match Js.chain jsonString JSON_parse with
    | Some parsed =>
        let st := setSessions (fun _ => parsed) st in
        if (0 <? Z.of_nat (List.length parsed)) then
          let sorted := Js.sort byLastUpdatedDesc parsed in
          let st := setSessions (fun _ => sorted) st in
          match sorted with
          | mostRecent :: _ =>
              let st := setCurrentSessionId (Some (id mostRecent)) st in
              withChat (resumeChat (messages mostRecent)) st
          | [] => st
          end
        else createNewSession newId t0 t1 st
    | None => createNewSession newId t0 t1 st
    end
  else createNewSession newId t0 t1 st.

Definition deleteSession (sid : string) (newId : string) (t0 t1 : Z)
    (st : AppState) : AppState :=
  let newSessions :=
    filter (fun s => negb (id s =? sid)%string) (sessions st) in
  let st' := setSessions (fun _ => newSessions) st in
  if isCurrent sid (currentSessionId st) then
    match newSessions with
    | first :: _ =>
        let st' := setCurrentSessionId (Some (id first)) st' in
        withChat (resumeChat (messages first)) st'
    | [] => createNewSession newId t0 t1 st'
    end
  else st'.

(** The sidebar's [onSelectSession]. *)
Definition onSelectSession (sid : string) (st : AppState) : AppState :=
  let st' :=
    match find (fun x => (id x =? sid)%string) (sessions st) with
    | Some s =>
        withChat (resumeChat (messages s))
                 (setCurrentSessionId (Some sid) st)
    | None => st
    end in
  if isMobile st then setIsSidebarOpen false st' else st'.

Definition handleLogout (st : AppState) : AppState :=
  setIsDropdownOpen false
    (setCurrentSessionId None
       (setSessions (fun _ => [])
          (setIsGuest false (setUser None st)))).

(** *** [handleSendMessage] *)

(** The title the first turn gives a session. *)
Definition turnTitle (userText : string) : string :=
  if (30 <? Z.of_nat (String.length userText))
  then substring 0 30 userText ++ "..."
  else userText.

(** The callback of the first [setSessions], on the matching session. *)
Definition submitUpdate (userText : string) (now : Z)
    (userMsg thinkingMsg : Message) (session : ChatSession) : ChatSession :=
  {| id := id session;
     session_title :=
       if (Z.of_nat (List.length (messages session)) <=? 1)
       then turnTitle userText
       else session_title session;
     messages := (messages session ++ [userMsg; thinkingMsg])%list;
     createdAt := createdAt session;
     lastUpdated := now |}.

(** [{ ...msg, text: response.text, places: response.places, isThinking: false }] *)
Definition resolveMsg (thinkingMsgId : string) (response : Reply)
    (msg : Message) : Message :=
  if (msg_id msg =? thinkingMsgId)%string then
    {| msg_id := msg_id msg; role := role msg;
       text := reply_text response;
       places := Some (reply_places response);
       isThinking := Some false |}
  else msg.

(** [{ ...msg, text: "Connection error. Please try again.", isThinking: false }] *)
Definition failMsg (thinkingMsgId : string) (msg : Message) : Message :=
  if (msg_id msg =? thinkingMsgId)%string then
    {| msg_id := msg_id msg; role := role msg;
       text := "Connection error. Please try again.";
       places := places msg;
       isThinking := Some false |}
  else msg.

(** [{ ...session, messages: updatedMessages }] *)
Definition withMessages (f : Message -> Message) (session : ChatSession)
  : ChatSession :=
  {| id := id session;
     session_title := session_title session;
     messages := map f (messages session);
     createdAt := createdAt session;
     lastUpdated := lastUpdated session |}.

(** [prev.map(session => session.id === currentSessionId ? f(session) : session)] *)
Definition onCurrent (cur : option string) (f : ChatSession -> ChatSession)
    (prev : list ChatSession) : list ChatSession :=
  map (fun session => if isCurrent (id session) cur then f session else session)
      prev.

(** [{ id: uuidv4(), role: 'user', text: userText }] *)
Definition userMsg (uuid : string) (userText : string) : Message :=
  {| msg_id := uuid; role := user_role; text := userText;
     places := None; isThinking := None |}.

(** [{ id: thinkingMsgId, role: 'model', text: '', isThinking: true }] *)
Definition thinkingMsg (uuid : string) : Message :=
  {| msg_id := uuid; role := model_role; text := "";
     places := None; isThinking := Some true |}.

(** What a turn in flight has captured: the session it was sent from,
    its placeholder, and what the service's promise settles to. *)
Record Pending := {
  turn_session : option string;
  thinkingMsgId : string;
  outcome : Settled Error Reply
}.

(** [handleSendMessage] up to its [await]: the guard, the two provisional
    messages, the call of the service. [uuid1], [uuid2] and [now] are the
    values [uuidv4()] and [Date.now()] return. *)
Definition submitTurn `{ChatService} (uuid1 uuid2 : string) (now : Z)
    (st : AppState) : AppState * option Pending :=
  if (Js.trim (inputText st) =? "")%string || isLoading st
     || negb (Js.truthy (currentSessionId st))
  then (st, None)
  else
    let cur := currentSessionId st in
    let userText := Js.trim (inputText st) in
    let st1 := setInputText "" st in
    let st2 :=
      setSessions
        (onCurrent cur (submitUpdate userText now (userMsg uuid1 userText)
                                     (thinkingMsg uuid2))) st1 in
    let st3 := setIsLoading true st2 in
    let '(result, chat) :=
      sendMessageToGemini userText (location st) (chatSession st3) in
    (withChat (fun _ => chat) st3,
     Some {| turn_session := cur; thinkingMsgId := uuid2; outcome := result |}).

(** [handleSendMessage] from the settling of the promise on: the [try]
    continuation or the [catch], then the [finally]. *)
Definition settleTurn (p : Pending) (st : AppState) : AppState :=
  let st' :=
    match outcome p with
    | Fulfilled response =>
        setSessions
          (onCurrent (turn_session p)
             (withMessages (resolveMsg (thinkingMsgId p) response))) st
    | Rejected _ =>
        setSessions
          (onCurrent (turn_session p)
             (withMessages (failMsg (thinkingMsgId p)))) st
    end in
  setIsLoading false st'.

(** A whole turn, when nothing else happens while it is in flight. *)
Definition handleSendMessage `{ChatService} (uuid1 uuid2 : string) (now : Z)
    (st : AppState) : AppState :=
  match submitTurn uuid1 uuid2 now st with
  | (st', Some p) => settleTurn p st'
  | (st', None) => st'
  end.

(** *** The events of the application *)

(** [handleCredentialResponse] (and the restoring of a saved user at
    mount) for [Some u], [handleGuestLogin] for [None]. *)
Definition identify (who : option User) (st : AppState) : AppState :=
  match who with
  | Some u => setIsGuest false (setUser (Some u) st)
  | None => setUser None (setIsGuest true st)
  end.

(** [!user && !isGuest]: the login screen is what is rendered. *)
Definition loggedOut (st : AppState) : bool :=
  match user st with
  | Some _ => false
  | None => negb (isGuest st)
  end.

(** The events. An identity is chosen ([handleCredentialResponse], the
    restoring of a saved user, [handleGuestLogin]): that sets the identity
    and nothing else. The effect on [[user, isGuest]] runs after the render
    that shows the new identity is committed, and loads what the
    identity's storage holds ([jsonString]). Then the handlers of the main
    screen, and the settling of a turn's promise. *)
Inductive Op :=
| OpIdentify (who : option User)
| OpLoad (jsonString : option string) (newId : string) (t0 t1 : Z)
| OpCreate (newId : string) (t0 t1 : Z)
| OpDelete (sid : string) (newId : string) (t0 t1 : Z)
| OpSelect (sid : string)
| OpLogout
| OpType (input : string)
| OpSubmit (uuid1 uuid2 : string) (now : Z)
| OpSettle (p : Pending).

(** [OpLoad] is the body of the effect: with a user or a guest it loads,
    with neither it does nothing. *)
Definition step `{ChatService} `{JsonParser} (op : Op) (st : AppState)
  : AppState :=
  match op with
  | OpIdentify who => identify who st
  | OpLoad jsonString newId t0 t1 =>
      if loggedOut st then st
      else parseAndLoadSessions jsonString newId t0 t1 st
  | OpCreate newId t0 t1 => createNewSession newId t0 t1 st
  | OpDelete sid newId t0 t1 => deleteSession sid newId t0 t1 st
  | OpSelect sid => onSelectSession sid st
  | OpLogout => handleLogout st
  | OpType input => setInputText input st
  | OpSubmit uuid1 uuid2 now => fst (submitTurn uuid1 uuid2 now st)
  | OpSettle p => settleTurn p st
  end.

(** What can happen next. [pending] says that the identity has changed and
    the effect that loads has not run yet: it runs before any handler does
    (React flushes the effects of a committed render before it handles a
    later event). Otherwise the screen that is rendered decides:
    an identity is chosen on the login screen, the store's handlers belong
    to the main screen. A promise settles whenever it does. *)
Definition available (pending : bool) (op : Op) (st : AppState) : bool :=
  match op with
  | OpSettle _ => true
  | OpLoad _ _ _ _ => pending
  | OpIdentify _ => negb pending && loggedOut st
  | _ => negb pending && negb (loggedOut st)
  end.

(** The identity changes when one is chosen and at the logout. *)
Definition pendingAfter (pending : bool) (op : Op) : bool :=
  match op with
  | OpIdentify _ | OpLogout => true
  | OpLoad _ _ _ _ => false
  | _ => pending
  end.

(** The states the application gets into, each a committed render; the
    index says whether the effect that loads is still to run. *)
Inductive reachableWith `{ChatService} `{JsonParser} : bool -> AppState -> Prop :=
| reachable_initial (mobile : bool) : reachableWith false (initialState mobile)
| reachable_step (pending : bool) (op : Op) (st : AppState) :
    reachableWith pending st -> available pending op st = true ->
    reachableWith (pendingAfter pending op) (step op st).

Definition reachable `{ChatService} `{JsonParser} (st : AppState) : Prop :=
  exists pending, reachableWith pending st.

(** *** What happens to one session *)

(** The events of a session's turns: a turn is submitted on it, and the
    promise of a turn submitted on it settles. *)
Inductive TurnEvent :=
| Submitted (userText : string) (now : Z) (uuid1 uuid2 : string)
| Settled (thinkingMsgId : string) (outcome : Settled Error Reply).

(** What [handleSendMessage] does to the session the turn belongs to. *)
Definition applyEvent (s : ChatSession) (e : TurnEvent) : ChatSession :=
  match e with
  | Submitted userText now uuid1 uuid2 =>
      submitUpdate userText now (userMsg uuid1 userText) (thinkingMsg uuid2) s
  | Settled tid (Fulfilled response) => withMessages (resolveMsg tid response) s
  | Settled tid (Rejected _) => withMessages (failMsg tid) s
  end.

(** *** Frame conditions *)

(** The sessions an operation brings into the store: the default one it
    may create, the stored ones it may load. *)
Definition introduced `{JsonParser} (op : Op) : list ChatSession :=
  match op with
  | OpLoad jsonString newId t0 t1 =>
      (match Js.chain jsonString JSON_parse with
       | Some parsed => parsed
       | None => []
       end ++ [newSession newId t0 t1])%list
  | OpCreate newId t0 t1 => [newSession newId t0 t1]
  | OpDelete _ newId t0 t1 => [newSession newId t0 t1]
  | _ => []
  end.

(** [keeps f op st st']: every session of [st'] was brought in by [op], or
    has the id and the [f] of a session of [st]. *)
Definition keeps `{JsonParser} {X : Type} (f : ChatSession -> X)
    (op : Op) (st st' : AppState) : Prop :=
  forall s', In s' (sessions st') ->
    In (id s', f s') (map (fun s => (id s, f s)) (sessions st))
    \/ In s' (introduced op).

(** The active id names a session of the store; with no active id the
    store is empty. *)
Definition activeInStore (st : AppState) : Prop :=
  match currentSessionId st with
  | Some c => exists s, In s (sessions st) /\ id s = c
  | None => sessions st = []
  end.

End App.

(** ** [App.tsx]: what is on display *)

Module View.

Import App.

(** [sessions.find(s => s.id === currentSessionId)?.messages || []] *)
Definition getCurrentMessages (st : AppState) : list Message :=
  match find (fun s => isCurrent (id s) (currentSessionId st)) (sessions st) with
  | Some s => messages s
  | None => []
  end.

End View.

(** ** [App.tsx]: the browser's storage, and signing in *)

Module Browser.

Import App.

(** A [Storage] object: what [getItem] answers for each key. *)
Definition WebStorage := string -> option string.

Definition getItem (key : string) (s : WebStorage) : option string := s key.

Definition setItem (key value : string) (s : WebStorage) : WebStorage :=
  fun k => if (k =? key)%string then Some value else s k.

Definition removeItem (key : string) (s : WebStorage) : WebStorage :=
  fun k => if (k =? key)%string then None else s k.

Definition emptyStorage : WebStorage := fun _ => None.

Record Storages := {
  localStorage : WebStorage;
  sessionStorage : WebStorage
}.

(** [JSON.stringify] on the session list and on a user, and [JSON.parse] on
    a saved user. *)
Class JsonWriter := {
  JSON_stringify : list ChatSession -> string;
  JSON_stringify_user : User -> string;
  JSON_parse_user : string -> option User
}.

(** [`condoscout_sessions_${user.id}`] *)
Definition sessionsKey (u : User) : string :=
  "condoscout_sessions_" ++ user_id u.

Definition GUEST_KEY : string := "condoscout_guest_sessions".
Definition USER_KEY : string := "condoscout_user".
Definition THEME_KEY : string := "condoscout_theme".

(** The effect on [[user, isGuest]]: load what the identity's storage
    holds. *)
Definition loadEffect `{JsonParser} (newId : string) (t0 t1 : Z)
    (b : Storages) (st : AppState) : AppState :=
  match user st with
  | Some u =>
      parseAndLoadSessions (getItem (sessionsKey u) (localStorage b))
                           newId t0 t1 st
  | None =>
      if isGuest st then
        parseAndLoadSessions (getItem GUEST_KEY (sessionStorage b))
                             newId t0 t1 st
      else st
  end.

(** The effect on [[sessions, user, isGuest]]: write the session list
    where the identity keeps it. *)
Definition persistEffect `{JsonWriter} (st : AppState) (b : Storages) : Storages :=
  if 0 <=? Z.of_nat (List.length (sessions st)) then
    match user st with
    | Some u =>
        {| localStorage :=
             setItem (sessionsKey u) (JSON_stringify (sessions st))
                     (localStorage b);
           sessionStorage := sessionStorage b |}
    | None =>
        if isGuest st then
          {| localStorage := localStorage b;
             sessionStorage :=
               setItem GUEST_KEY (JSON_stringify (sessions st))
                       (sessionStorage b) |}
        else b
    end
  else b.

(** What [handleLogout] does to the storage. *)
Definition logoutStorage (b : Storages) : Storages :=
  {| localStorage := removeItem USER_KEY (localStorage b);
     sessionStorage := sessionStorage b |}.

(** The part of the mount effect that restores a saved user. *)
Definition restoreUser `{JsonWriter} (b : Storages) (st : AppState) : AppState :=
  let savedUser := getItem USER_KEY (localStorage b) in
  if Js.truthy savedUser then
    match Js.chain savedUser JSON_parse_user with
    | Some u => setIsGuest false (setUser (Some u) st)
    | None => st
    end
  else st.

(** *** [parseJwt] *)

(** [String.prototype.split] on a one-character separator. *)
Fixpoint split (sep : ascii) (s : string) : list string :=
  match s with
  | EmptyString => [EmptyString]
  | String c r =>
      if Ascii.eqb c sep then EmptyString :: split sep r
      else match split sep r with
           | cur :: rest => String c cur :: rest
           | [] => [String c EmptyString]
           end
  end.

(** [s.replace(/a/g, 'b')] for characters [a] and [b]. *)
Fixpoint replaceAll (a b : ascii) (s : string) : string :=
  match s with
  | EmptyString => EmptyString
  | String c r => String (if Ascii.eqb c a then b else c) (replaceAll a b r)
  end.

Definition hexDigit (n : nat) : ascii :=
  ascii_of_nat (if Nat.ltb n 10 then 48 + n else 87 + n).

(** [c.charCodeAt(0).toString(16)], for a code unit below 256. *)
Definition toString16 (c : ascii) : string :=
  let n := nat_of_ascii c in
  if Nat.ltb n 16 then String (hexDigit n) EmptyString
  else String (hexDigit (n / 16)) (String (hexDigit (n mod 16)) EmptyString).

(** [s.slice(-2)] *)
Definition sliceLast2 (s : string) : string :=
  substring (String.length s - 2) 2 s.

(** ['%' + ('00' + c.charCodeAt(0).toString(16)).slice(-2)] *)
Definition percentOf (c : ascii) : string :=
  "%" ++ sliceLast2 ("00" ++ toString16 c).

(** [.split('').map(...).join('')] *)
Fixpoint percentEncode (s : string) : string :=
  match s with
  | EmptyString => EmptyString
  | String c r => percentOf c ++ percentEncode r
  end.

(** The claims of a Google credential the application reads. *)
Record JwtPayload := {
  sub : string;
  payload_name : string;
  payload_email : string;
  payload_picture : string
}.

(** [window.atob], [decodeURIComponent] and [JSON.parse] on the payload:
    each answers or throws ([None]). *)
Class JwtBuiltins := {
  atob : string -> option string;
  decodeURIComponent : string -> option string;
  JSON_parse_payload : string -> option JwtPayload
}.

(** [None]: an exception. With no second segment, [base64Url] is
    [undefined] and [.replace] throws. *)
Definition parseJwt `{JwtBuiltins} (token : string) : option JwtPayload :=
  match nth_error (split "." token) 1 with
  | Some base64Url =>
      let base64 := replaceAll "_" "/" (replaceAll "-" "+" base64Url) in
      match atob base64 with
      | Some bin =>
          match decodeURIComponent (percentEncode bin) with
          | Some jsonPayload => JSON_parse_payload jsonPayload
          | None => None
          end
      | None => None
      end
  | None => None
  end.

(** [credential] is [response.credential]. *)
Definition handleCredentialResponse `{JwtBuiltins} `{JsonWriter}
    (credential : string) (st : AppState) (b : Storages)
  : AppState * Storages :=
  match parseJwt credential with
  | Some payload =>
      let newUser :=
        {| user_id := sub payload;
           user_name := payload_name payload;
           user_email := payload_email payload;
           picture := payload_picture payload |} in
      (setIsGuest false (setUser (Some newUser) st),
       {| localStorage :=
            setItem USER_KEY (JSON_stringify_user newUser) (localStorage b);
          sessionStorage := sessionStorage b |})
  | None => (st, b)
  end.

End Browser.

(** ** Sample data *)

Module Sample.

Definition mapsChunk (t u : string) : GroundingChunk :=
  {| web := None;
     maps := Some {| googleMapsUri := None; maps_uri := Some u;
                     maps_title := Some t; maps_placeId := None;
                     maps_address := None; placeAnswerSources := None |} |}.

Definition place (t u : string) : PlaceData :=
  {| title := t; uri := u; address := None; description := None;
     placeId := None |}.

(** A chunk with a title and neither URI field. *)
Definition noUriChunk : GroundingChunk :=
  {| web := None;
     maps := Some {| googleMapsUri := None; maps_uri := None;
                     maps_title := Some "Condo"; maps_placeId := None;
                     maps_address := None; placeAnswerSources := None |} |}.

(** A transport that is down. *)
Definition offline : ChatService :=
  {| sendMessage := fun chat _ => (Rejected "fetch failed", chat) |}.

(** A provider that answers with no text and no candidates. *)
Definition silent : ChatService :=
  {| sendMessage := fun chat _ =>
       (Fulfilled {| response_text := None; candidates := None |}, chat) |}.

(** A store whose blobs never parse. *)
Definition noParse : JsonParser := {| JSON_parse := fun _ => None |}.

(** A store holding one default session that is not the active one. *)
Definition strayStore : App.AppState :=
  App.setSessions (fun _ => [App.newSession "s1" 1000 1000])
                  (App.initialState false).

(** A store holding one default session, the active one, with a question
    typed in. *)
Definition typedStore : App.AppState :=
  App.setInputText "condos in Silom"
    (App.createNewSession "s1" 1000 1000 (App.initialState false)).

End Sample.

(** ** More sample data *)

Module Fixtures.

Import App.
Import Browser.

Definition ada : User :=
  {| user_id := "u1"; user_name := "Ada"; user_email := "ada@example.org";
     picture := "https://example.org/ada.png" |}.

Definition older : ChatSession :=
  {| id := "a"; session_title := "Condos in Silom";
     messages := [welcomeMsg; userMsg "m1" "Condos in Silom"];
     createdAt := 10; lastUpdated := 10 |}.

Definition newer : ChatSession :=
  {| id := "b"; session_title := "Hotels";
     messages := [welcomeMsg]; createdAt := 20; lastUpdated := 30 |}.

(** A store of blobs: the blob "stored" holds [older] and [newer]. *)
Definition stored : JsonParser :=
  {| JSON_parse := fun raw =>
       if (raw =? "stored")%string then Some [older; newer] else None |}.

(** A writer whose blobs [stored] reads back, for the list above. *)
Definition writer : JsonWriter :=
  {| JSON_stringify := fun _ => "stored";
     JSON_stringify_user := fun _ => "ada";
     JSON_parse_user := fun raw =>
       if (raw =? "ada")%string then Some ada else None |}.

(** Builtins that decode nothing and read the claims of [ada]. *)
Definition plain : JwtBuiltins :=
  {| atob := fun s => Some s;
     decodeURIComponent := fun s => Some s;
     JSON_parse_payload := fun _ =>
       Some {| sub := "u1"; payload_name := "Ada";
               payload_email := "ada@example.org";
               payload_picture := "https://example.org/ada.png" |} |}.

(** [ada] signed in, with the two sessions, the more recent one active. *)
Definition signedIn : AppState :=
  setCurrentSessionId (Some "b")
    (setSessions (fun _ => [newer; older])
       (identify (Some ada) (initialState false))).

Definition noStorage : Storages :=
  {| localStorage := emptyStorage; sessionStorage := emptyStorage |}.

(** A guest, after the load that found nothing, with a question typed in. *)
Definition guestStore : AppState :=
  setInputText "condos in Silom"
    (createNewSession "s1" 1000 1000 (identify None (initialState false))).

End Fixtures.

(** * Properties *)

Import Sample.
Import Fixtures.

Import GeminiService.

(** ** Lists *)

Lemma Subseq_refl {A : Type} (l : list A) : Subseq l l.
Proof. induction l; constructor; assumption. Qed.

Lemma Subseq_In {A : Type} (l1 l2 : list A) (x : A) :
  Subseq l1 l2 -> In x l1 -> In x l2.
Proof.
  induction 1 as [| y l1 l2 _ IH | y l1 l2 _ IH]; simpl; intros Hin.
  - assumption.
  - destruct Hin as [-> | Hin]; [now left | right; now apply IH].
  - right; now apply IH.
Qed.

(** ** The grounding normaliser *)

Lemma extractPlaces_fold (chunks : list GroundingChunk) (acc : list PlaceData) :
  fold_left
    (fun places chunk =>
       match placeOfChunk chunk with
       | Some p => (places ++ [p])%list
       | None => places
       end) chunks acc
  = (acc ++ recordsOf chunks)%list.
Proof.
  revert acc; induction chunks as [| c cs IH]; intros acc; simpl.
  - now rewrite app_nil_r.
  - rewrite IH. destruct (placeOfChunk c); simpl.
    + now rewrite <- app_assoc.
    + reflexivity.
Qed.

Lemma extractPlaces_recordsOf (chunks : list GroundingChunk) :
  extractPlaces chunks = recordsOf chunks.
Proof. unfold extractPlaces. now rewrite extractPlaces_fold. Qed.

(** Looking for a title from index [i] in [pre ++ v :: r], where [v] has
    it: the search stops at [v] exactly when no element of [pre] has it. *)
Lemma findIndexFrom_first (v : PlaceData) (pre r : list PlaceData) (i : Z) :
  0 <= i ->
  (Js.findIndexFrom i (fun t => (title t =? title v)%string) (pre ++ v :: r)
   =? i + Z.of_nat (List.length pre))
  = negb (existsb (fun t => (t =? title v)%string) (map title pre)).
Proof.
  revert i; induction pre as [| x pre IH]; intros i Hi; simpl.
  - rewrite String.eqb_refl. apply Z.eqb_eq. lia.
  - destruct (title x =? title v)%string eqn:E; simpl.
    + apply Z.eqb_neq. lia.
    + rewrite <- (IH (i + 1)) by lia. f_equal. lia.
Qed.

Lemma seen_In (x : string) (seen : list string) :
  existsb (fun t => (t =? x)%string) seen = true <-> In x seen.
Proof.
  rewrite existsb_exists. split.
  - intros [t [Hin Heq]]. apply String.eqb_eq in Heq. now subst.
  - intros Hin. exists x. split; [assumption | apply String.eqb_refl].
Qed.

Lemma seen_ext (x : string) (s1 s2 : list string) :
  (forall t, In t s1 <-> In t s2) ->
  existsb (fun t => (t =? x)%string) s1 = existsb (fun t => (t =? x)%string) s2.
Proof.
  intros Hext. apply eq_true_iff_eq. rewrite !seen_In. apply Hext.
Qed.

(** Only the set of the titles seen matters. *)
Lemma firstOccurrences_ext (l : list PlaceData) (s1 s2 : list string) :
  (forall t, In t s1 <-> In t s2) ->
  firstOccurrences s1 l = firstOccurrences s2 l.
Proof.
  revert s1 s2; induction l as [| v r IH]; intros s1 s2 Hext; simpl.
  - reflexivity.
  - rewrite (seen_ext (title v) s1 s2 Hext).
    destruct (existsb _ s2).
    + now apply IH.
    + f_equal. apply IH. intros t; simpl. now rewrite Hext.
Qed.

Lemma filterFrom_firstOccurrences (pre rest : list PlaceData) :
  Js.filterFrom (Z.of_nat (List.length pre))
    (fun v i a => Js.findIndex (fun t => (title t =? title v)%string) a =? i)
    (pre ++ rest) rest
  = firstOccurrences (map title pre) rest.
Proof.
  revert pre; induction rest as [| v r IH]; intros pre; simpl.
  - reflexivity.
  - unfold Js.findIndex.
    pose proof (findIndexFrom_first v pre r 0 (Z.le_refl 0)) as Hf.
    simpl in Hf. rewrite Hf.
    assert (Hstep : Js.filterFrom (Z.of_nat (List.length pre) + 1)
              (fun v0 i a =>
                 Js.findIndexFrom 0 (fun t => (title t =? title v0)%string) a =? i)
              (pre ++ v :: r) r
            = firstOccurrences (map title (pre ++ [v])) r).
    { specialize (IH (pre ++ [v])%list).
      rewrite <- app_assoc in IH. simpl in IH.
      rewrite length_app in IH. simpl in IH.
      replace (Z.of_nat (List.length pre + 1))
        with (Z.of_nat (List.length pre) + 1) in IH by lia.
      exact IH. }
    rewrite Hstep.
    destruct (existsb (fun t => (t =? title v)%string) (map title pre)) eqn:E; simpl.
    + apply firstOccurrences_ext. intros t.
      rewrite map_app, in_app_iff. simpl. apply seen_In in E.
      split; [intros [H | [<- | []]]; assumption | intros H; now left].
    + f_equal. apply firstOccurrences_ext. intros t.
      rewrite map_app, in_app_iff. simpl. tauto.
Qed.

Lemma uniquePlaces_firstOccurrences (places : list PlaceData) :
  uniquePlaces places = firstOccurrences [] places.
Proof. exact (filterFrom_firstOccurrences [] places). Qed.

Lemma firstOccurrences_Subseq (l : list PlaceData) (seen : list string) :
  Subseq (firstOccurrences seen l) l.
Proof.
  revert seen; induction l as [| v r IH]; intros seen; simpl.
  - constructor.
  - destruct (existsb _ seen); constructor; apply IH.
Qed.

Lemma firstOccurrences_fresh (l : list PlaceData) (seen : list string) (p : PlaceData) :
  In p (firstOccurrences seen l) -> ~ In (title p) seen.
Proof.
  revert seen; induction l as [| v r IH]; intros seen; simpl.
  - intros [].
  - destruct (existsb _ seen) eqn:E.
    + apply IH.
    + intros [<- | Hin].
      * intros Hseen. apply seen_In in Hseen. congruence.
      * intros Hseen. apply (IH _ Hin). now right.
Qed.

Lemma firstOccurrences_NoDup (l : list PlaceData) (seen : list string) :
  NoDup (map title (firstOccurrences seen l)).
Proof.
  revert seen; induction l as [| v r IH]; intros seen; simpl.
  - constructor.
  - destruct (existsb _ seen); [apply IH |].
    simpl. constructor; [| apply IH].
    intros Hin. apply in_map_iff in Hin. destruct Hin as [q [Hq Hin]].
    apply firstOccurrences_fresh in Hin. apply Hin. rewrite Hq. now left.
Qed.

(** A kept record is the first of the list with its title, among the
    records whose title was not seen. *)
Lemma firstOccurrences_first (l : list PlaceData) (seen : list string) (p : PlaceData) :
  In p (firstOccurrences seen l) ->
  exists l1 l2, l = (l1 ++ p :: l2)%list /\ ~ In (title p) (map title l1).
Proof.
  revert seen; induction l as [| v r IH]; intros seen; simpl.
  - intros [].
  - destruct (existsb _ seen) eqn:E.
    + intros Hin. pose proof (firstOccurrences_fresh _ _ _ Hin) as Hfresh.
      destruct (IH _ Hin) as [l1 [l2 [-> Hl1]]].
      exists (v :: l1), l2. split; [reflexivity |].
      simpl. intros [Hv | Hin1]; [| now apply Hl1].
      apply Hfresh. apply seen_In. now rewrite <- Hv.
    + intros [<- | Hin].
      * exists [], r. split; [reflexivity | intros []].
      * pose proof (firstOccurrences_fresh _ _ _ Hin) as Hfresh.
        destruct (IH _ Hin) as [l1 [l2 [-> Hl1]]].
        exists (v :: l1), l2. split; [reflexivity |].
        simpl. intros [Hv | Hin1]; [| now apply Hl1].
        apply Hfresh. now left.
Qed.

(** Every title of the list is seen already or kept. *)
Lemma firstOccurrences_complete (l : list PlaceData) (seen : list string) (p : PlaceData) :
  In p l -> In (title p) seen \/ In (title p) (map title (firstOccurrences seen l)).
Proof.
  revert seen; induction l as [| v r IH]; intros seen; simpl.
  - intros [].
  - intros [-> | Hin].
    + destruct (existsb _ seen) eqn:E.
      * left. now apply seen_In.
      * right. now left.
    + destruct (existsb _ seen) eqn:E.
      * now apply IH.
      * destruct (IH (title v :: seen) Hin) as [[Hv | Hs] | Hk].
        -- right. left. assumption.
        -- now left.
        -- right. now right.
Qed.

(** The scenario of the spec: two chunks titled A and one titled B. *)
Example groundingNormalizer_scenario :
  groundingNormalizer
    (Some [mapsChunk "A" "u1"; mapsChunk "A" "u2"; mapsChunk "B" "u3"])
  = [place "A" "u1"; place "B" "u3"].
Proof. reflexivity. Qed.

Example groundingNormalizer_absent : groundingNormalizer None = [].
Proof. reflexivity. Qed.

(** C1. For every list of grounding chunks (or none), the records the
    normaliser returns have pairwise different titles, and they are the
    records of the chunks in the chunks' order with nothing moved: each one
    returned is the first record of the input with its title, and every
    title of the input is returned. *)
Theorem groundingNormalizer_first_occurrences
    (chunks : option (list GroundingChunk)) :
  let records := match chunks with Some cs => recordsOf cs | None => [] end in
  let out := groundingNormalizer chunks in
  NoDup (map title out)
  /\ Subseq out records
  /\ (forall p, In p out ->
        exists l1 l2, records = (l1 ++ p :: l2)%list
                      /\ ~ In (title p) (map title l1))
  /\ (forall p, In p records -> In (title p) (map title out))
  /\ out = firstOccurrences [] records.
Proof.
  intros records out.
  assert (Hout : out = firstOccurrences [] records).
  { unfold out, groundingNormalizer. rewrite uniquePlaces_firstOccurrences.
    destruct chunks; [now rewrite extractPlaces_recordsOf | reflexivity]. }
  rewrite Hout. repeat split.
  - apply firstOccurrences_NoDup.
  - apply firstOccurrences_Subseq.
  - intros p Hin. now apply firstOccurrences_first with (seen := []).
  - intros p Hin.
    destruct (firstOccurrences_complete records [] p Hin) as [[] | H]; exact H.
Qed.

(** ** Chunks that are dropped *)

Lemma placeOfChunk_dropped (c : GroundingChunk) :
  (forall m, maps c = Some m ->
     Js.truthy (maps_title m) = false
     \/ (maps_uri m = None /\ googleMapsUri m = None)) ->
  placeOfChunk c = None.
Proof.
  intros H. unfold placeOfChunk. destruct (maps c) as [m |]; [| reflexivity].
  destruct (H m eq_refl) as [Ht | [Hu Hg]].
  - destruct (maps_title m) as [t |]; [| reflexivity].
    simpl in Ht. apply negb_false_iff in Ht. now rewrite Ht.
  - rewrite Hu, Hg. simpl. destruct (maps_title m) as [t |]; [| reflexivity].
    now rewrite andb_false_r.
Qed.

Lemma recordsOf_app (l1 l2 : list GroundingChunk) :
  recordsOf (l1 ++ l2) = (recordsOf l1 ++ recordsOf l2)%list.
Proof. apply flat_map_app. Qed.

(** What an accepted chunk has: a non-empty title, and a non-empty URI
    taken from [uri] when that is non-empty and from [googleMapsUri]
    otherwise. *)
Lemma placeOfChunk_accepted (c : GroundingChunk) (p : PlaceData) :
  placeOfChunk c = Some p ->
  exists m, maps c = Some m
    /\ maps_title m = Some (title p) /\ title p <> ""
    /\ uri p <> ""
    /\ Some (uri p) = (if Js.truthy (maps_uri m) then maps_uri m
                       else googleMapsUri m).
Proof.
  unfold placeOfChunk. destruct (maps c) as [m |]; [| discriminate].
  destruct (maps_title m) as [t |] eqn:Et; [| discriminate].
  destruct (t =? "")%string eqn:Ht; simpl; [discriminate |].
  destruct (Js.or_default _ "" =? "")%string eqn:Hu; simpl; [discriminate |].
  intros [= <-]. simpl. exists m.
  apply String.eqb_neq in Ht, Hu.
  repeat split; try assumption.
  revert Hu. unfold Js.or_else, Js.or_default, Js.truthy.
  destruct (maps_uri m) as [u |].
  - destruct (u =? "")%string eqn:Eu; simpl.
    + destruct (googleMapsUri m) as [g |]; [| congruence].
      destruct (g =? "")%string; congruence.
    + now rewrite Eu.
  - destruct (googleMapsUri m) as [g |]; [| congruence].
    destruct (g =? "")%string; congruence.
Qed.

(** C7. A chunk with no non-empty title, or whose maps payload has neither
    [uri] nor [googleMapsUri], yields no record, and the normaliser's output
    is what it is without that chunk: the chunk is dropped, and nothing
    fails. *)
Theorem groundingNormalizer_drops_partial_chunk
    (pre post : list GroundingChunk) (c : GroundingChunk) :
  (forall m, maps c = Some m ->
     Js.truthy (maps_title m) = false
     \/ (maps_uri m = None /\ googleMapsUri m = None)) ->
  placeOfChunk c = None
  /\ groundingNormalizer (Some (pre ++ c :: post)%list)
     = groundingNormalizer (Some (pre ++ post)%list).
Proof.
  intros H. pose proof (placeOfChunk_dropped c H) as Hc.
  split; [assumption |].
  unfold groundingNormalizer. rewrite !extractPlaces_recordsOf.
  rewrite !recordsOf_app. simpl. now rewrite Hc.
Qed.

Lemma groundingNormalizer_drops_partial_chunk_witness :
  (forall m, maps noUriChunk = Some m ->
     Js.truthy (maps_title m) = false
     \/ (maps_uri m = None /\ googleMapsUri m = None))
  /\ placeOfChunk noUriChunk = None
  /\ groundingNormalizer
       (Some ([mapsChunk "A" "u1"] ++ noUriChunk :: [mapsChunk "B" "u3"])%list)
     = groundingNormalizer
         (Some ([mapsChunk "A" "u1"] ++ [mapsChunk "B" "u3"])%list).
Proof.
  assert (Hc : forall m, maps noUriChunk = Some m ->
            Js.truthy (maps_title m) = false
            \/ (maps_uri m = None /\ googleMapsUri m = None)).
  { intros m [= <-]. right. split; reflexivity. }
  split; [exact Hc |].
  exact (groundingNormalizer_drops_partial_chunk
           [mapsChunk "A" "u1"] [mapsChunk "B" "u3"] noUriChunk Hc).
Defined.

(** ** The conversation context *)

Lemma validHistory_Without (history : list Message) :
  Without (fun m => isThinking m = Some true \/ msg_id m = "welcome")
          history (filter keptInHistory history).
Proof.
  induction history as [| m rest IH]; simpl.
  - constructor.
  - unfold keptInHistory at 1.
    destruct (isThinking m) as [[|] |] eqn:Et; simpl.
    + apply Without_drop; [now left | assumption].
    + destruct (msg_id m =? "welcome")%string eqn:Ew; simpl.
      * apply Without_drop; [right; now apply String.eqb_eq | assumption].
      * apply Without_keep; [| assumption].
        apply String.eqb_neq in Ew. intros [H | H]; congruence.
    + destruct (msg_id m =? "welcome")%string eqn:Ew; simpl.
      * apply Without_drop; [right; now apply String.eqb_eq | assumption].
      * apply Without_keep; [| assumption].
        apply String.eqb_neq in Ew. intros [H | H]; congruence.
Qed.

Lemma Without_Subseq {A : Type} (P : A -> Prop) (l k : list A) :
  Without P l k -> Subseq k l.
Proof. induction 1; constructor; assumption. Qed.

(** C4. For every history, [resumeChat] replaces the context by one whose
    seed history is made from the messages of the history without exactly
    those that are thinking placeholders or have the id "welcome": the
    others, in their order, each as its role with its text. *)
Theorem resumeChat_seed_history (msgs : list Message) (chatSession : option Chat) :
  exists kept chat,
    Without (fun m => isThinking m = Some true \/ msg_id m = "welcome")
            msgs kept
    /\ Subseq kept msgs
    /\ resumeChat msgs chatSession = Some chat
    /\ validHistory msgs
       = map (fun m => {| content_role := role m;
                          parts := [ {| part_text := text m |} ] |}) kept
    /\ history (chat_params chat)
       = map (fun m => {| content_role := role m;
                          parts := [ {| part_text := text m |} ] |}) kept.
Proof.
  exists (filter keptInHistory msgs),
         (chats_create (chatParams (validHistory msgs))).
  pose proof (validHistory_Without msgs) as Hw.
  repeat split; try assumption.
  now apply Without_Subseq
    with (P := fun m => isThinking m = Some true \/ msg_id m = "welcome").
Qed.

(** ** Sending a turn *)

(** The context a send uses: the live one, or the one the fallback makes. *)
Lemma fallback_context (chatSession : option Chat) :
  exists chat,
    match chatSession with
    | None => startNewChat chatSession
    | Some _ => chatSession
    end = Some chat.
Proof. destruct chatSession as [c |]; [now exists c | now eexists]. Qed.

(** The promise of [sendMessageToGemini] is always fulfilled. *)
Lemma sendMessageToGemini_fulfilled `{ChatService}
    (message : string) (userLocation : option Location)
    (chatSession : option Chat) :
  exists reply chat,
    sendMessageToGemini message userLocation chatSession
    = (Fulfilled reply, Some chat).
Proof.
  unfold sendMessageToGemini.
  destruct (fallback_context chatSession) as [chat ->].
  destruct (sendMessage chat message) as [[result | e] chat']; eauto.
Qed.

(** C2. Whatever the message, when the send call of the live context (the
    one the fallback made, if there was none) rejects, with whatever error,
    the promise of [sendMessageToGemini] is fulfilled, with the apology
    text and no places: the caller sees no rejection. *)
Theorem sendMessageToGemini_catches_provider_error `{ChatService}
    (message : string) (userLocation : option Location)
    (chatSession : option Chat) (chat chat' : Chat) (e : string) :
  match chatSession with
  | None => startNewChat chatSession
  | Some _ => chatSession
  end = Some chat ->
  sendMessage chat message = (Rejected e, chat') ->
  fst (sendMessageToGemini message userLocation chatSession)
  = Fulfilled {| reply_text :=
                   "I apologize, but I am unable to access the property database at this moment. Please try again shortly.";
                 reply_places := [] |}.
Proof.
  intros Hchat Hsend. unfold sendMessageToGemini.
  rewrite Hchat, Hsend. reflexivity.
Qed.

Lemma sendMessageToGemini_catches_provider_error_witness :
  let chat := chats_create (chatParams []) in
  startNewChat None = Some chat
  /\ @sendMessage offline chat "condos in Silom" = (Rejected "fetch failed", chat)
  /\ fst (@sendMessageToGemini offline "condos in Silom" None None)
     = Fulfilled {| reply_text :=
                      "I apologize, but I am unable to access the property database at this moment. Please try again shortly.";
                    reply_places := [] |}.
Proof.
  intros chat. split; [reflexivity |]. split; [reflexivity |].
  exact (@sendMessageToGemini_catches_provider_error offline
           "condos in Silom" None None chat chat "fetch failed"
           eq_refl eq_refl).
Defined.

(** C9. The branch that throws "Failed to initialize chat session" is
    never taken: after the fallback there is a context, so the promise of
    [sendMessageToGemini] never rejects for want of one, and a context is
    live afterwards. *)
Theorem sendMessageToGemini_never_fails_to_initialize `{ChatService}
    (message : string) (userLocation : option Location)
    (chatSession : option Chat) :
  match chatSession with
  | None => startNewChat chatSession
  | Some _ => chatSession
  end <> None
  /\ fst (sendMessageToGemini message userLocation chatSession)
     <> Rejected FailedToInitialize
  /\ snd (sendMessageToGemini message userLocation chatSession) <> None.
Proof.
  destruct (fallback_context chatSession) as [chat Hchat].
  destruct (sendMessageToGemini_fulfilled message userLocation chatSession)
    as [reply [chat' Hsend]].
  rewrite Hchat, Hsend. simpl. repeat split; discriminate.
Qed.

Lemma or_default_nonempty (a : option string) (d : string) :
  d <> "" -> Js.or_default a d <> "".
Proof.
  intros Hd. unfold Js.or_default. destruct a as [s |]; [| assumption].
  destruct (s =? "")%string eqn:E; [assumption | now apply String.eqb_neq].
Qed.

(** C10. For every call, the promise of [sendMessageToGemini] is fulfilled
    with a reply whose text is not empty: the provider's text when it is
    not empty, the default sentence when the provider's text is empty or
    absent, the apology when the send rejects. *)
Theorem sendMessageToGemini_text_nonempty `{ChatService}
    (message : string) (userLocation : option Location)
    (chatSession : option Chat) :
  exists reply chat,
    fst (sendMessageToGemini message userLocation chatSession) = Fulfilled reply
    /\ match chatSession with
       | None => startNewChat chatSession
       | Some _ => chatSession
       end = Some chat
    /\ reply_text reply <> ""
    /\ reply_text reply
       = match fst (sendMessage chat message) with
         | Fulfilled result =>
             match response_text result with
             | Some "" | None => "I've curated a list of properties for you:"
             | Some t => t
             end
         | Rejected _ =>
             "I apologize, but I am unable to access the property database at this moment. Please try again shortly."
         end.
Proof.
  destruct (fallback_context chatSession) as [chat Hchat].
  unfold sendMessageToGemini. rewrite Hchat.
  destruct (sendMessage chat message) as [[result | e] chat'] eqn:Hs; simpl.
  - eexists; exists chat. rewrite Hs.
    split; [reflexivity |]. split; [reflexivity |]. simpl. split.
    + apply or_default_nonempty. discriminate.
    + unfold Js.or_default. destruct (response_text result) as [t |]; [| reflexivity].
      destruct t; reflexivity.
  - eexists; exists chat. rewrite Hs.
    split; [reflexivity |]. split; [reflexivity |]. simpl.
    split; [discriminate | reflexivity].
Qed.

(** ** The title of a session *)

Import App.

Lemma applyEvent_frozen (s : ChatSession) (e : TurnEvent) :
  (2 <= List.length (messages s))%nat ->
  session_title (applyEvent s e) = session_title s
  /\ (2 <= List.length (messages (applyEvent s e)))%nat.
Proof.
  intros Hlen. destruct e as [userText now uuid1 uuid2 | tid [response | err]];
    simpl.
  - split.
    + destruct (Z.of_nat (List.length (messages s)) <=? 1) eqn:E;
        [apply Z.leb_le in E; lia | reflexivity].
    + rewrite length_app. lia.
  - split; [reflexivity | now rewrite length_map].
  - split; [reflexivity | now rewrite length_map].
Qed.

(** Once a session has two messages, no sequence of turns changes its
    title. *)
Lemma title_frozen (evs : list TurnEvent) (s : ChatSession) :
  (2 <= List.length (messages s))%nat ->
  session_title (fold_left applyEvent evs s) = session_title s.
Proof.
  revert s; induction evs as [| e evs IH]; intros s Hlen; simpl.
  - reflexivity.
  - destruct (applyEvent_frozen s e Hlen) as [Ht Hl].
    rewrite IH by assumption. exact Ht.
Qed.

(** In the store, a submitted turn is the event [Submitted] on the active
    session, with the trimmed input as its text. *)
Lemma submitTurn_sessions `{ChatService} (uuid1 uuid2 : string) (now : Z)
    (st st' : AppState) (p : Pending) :
  submitTurn uuid1 uuid2 now st = (st', Some p) ->
  sessions st'
  = onCurrent (currentSessionId st)
      (fun s => applyEvent s (Submitted (Js.trim (inputText st)) now uuid1 uuid2))
      (sessions st).
Proof.
  unfold submitTurn.
  destruct ((Js.trim (inputText st) =? "")%string || isLoading st
            || negb (Js.truthy (currentSessionId st))); [discriminate |].
  destruct (sendMessageToGemini _ _ _) as [result chat].
  intros [= <- _]. reflexivity.
Qed.

(** On one session: the first turn (the session holds its welcome message
    at most) sets the title from the text, the first 30 characters and
    three dots when the text is longer than 30, the text itself otherwise;
    whatever events follow, the title stays that. *)
Lemma events_title (s : ChatSession) (userText : string) (now : Z)
    (uuid1 uuid2 : string) (evs : list TurnEvent) :
  (List.length (messages s) <= 1)%nat ->
  session_title
    (fold_left applyEvent (Submitted userText now uuid1 uuid2 :: evs) s)
  = if (30 <? String.length userText)%nat
    then substring 0 30 userText ++ "..."
    else userText.
Proof.
  intros Hfirst. simpl. rewrite title_frozen.
  - simpl. destruct (Z.of_nat (List.length (messages s)) <=? 1) eqn:E;
      [| apply Z.leb_gt in E; lia].
    unfold turnTitle.
    destruct (30 <? Z.of_nat (String.length userText)) eqn:E1;
      destruct (30 <? String.length userText)%nat eqn:E2; try reflexivity.
    + apply Z.ltb_lt in E1. apply Nat.ltb_ge in E2. lia.
    + apply Z.ltb_ge in E1. apply Nat.ltb_lt in E2. lia.
  - simpl. rewrite length_app. simpl. lia.
Qed.

Example events_title_long_text :
  session_title
    (fold_left applyEvent
       [Submitted "Show me some 1-bedroom apartments in Sukhumvit" 2000 "m1" "m2";
        Settled "m2" (Fulfilled {| reply_text := "Here they are."; reply_places := [] |});
        Submitted "hotels" 3000 "m3" "m4"]
       (newSession "s1" 1000 1000))
  = "Show me some 1-bedroom apartme...".
Proof. reflexivity. Qed.

Example title_short_text_verbatim :
  session_title
    (fold_left applyEvent
       [Submitted "hotels" 2000 "m1" "m2"; Submitted "condos" 3000 "m3" "m4"]
       (newSession "s1" 1000 1000))
  = "hotels".
Proof. reflexivity. Qed.

(** ** The session store *)

Lemma createNewSession_sessions (newId : string) (t0 t1 : Z) (st : AppState) :
  sessions (createNewSession newId t0 t1 st)
  = newSession newId t0 t1 :: sessions st.
Proof. unfold createNewSession. simpl. now destruct (isMobile st). Qed.

Lemma createNewSession_current (newId : string) (t0 t1 : Z) (st : AppState) :
  currentSessionId (createNewSession newId t0 t1 st) = Some newId.
Proof. unfold createNewSession. simpl. now destruct (isMobile st). Qed.

Lemma createNewSession_chat (newId : string) (t0 t1 : Z) (st : AppState) :
  chatSession (createNewSession newId t0 t1 st) = startNewChat (chatSession st).
Proof. unfold createNewSession. simpl. now destruct (isMobile st). Qed.

Lemma identify_sessions (who : option User) (st : AppState) :
  sessions (identify who st) = sessions st.
Proof. now destruct who. Qed.

Lemma deleteSession_sessions (sid newId : string) (t0 t1 : Z) (st : AppState) :
  sessions (deleteSession sid newId t0 t1 st)
  = let remaining := filter (fun s => negb (id s =? sid)%string) (sessions st) in
    if isCurrent sid (currentSessionId st) then
      match remaining with
      | [] => [newSession newId t0 t1]
      | _ => remaining
      end
    else remaining.
Proof.
  unfold deleteSession. simpl.
  destruct (isCurrent sid (currentSessionId st)); [| reflexivity].
  destruct (filter _ (sessions st)) as [| first rest]; [| reflexivity].
  now rewrite createNewSession_sessions.
Qed.

Lemma activeInStore_single (st : AppState) (s : ChatSession) :
  activeInStore st -> sessions st = [s] -> currentSessionId st = Some (id s).
Proof.
  unfold activeInStore. intros Hact Hs. rewrite Hs in Hact.
  destruct (currentSessionId st) as [c |]; [| discriminate].
  destruct Hact as [s' [[<- | []] <-]]. reflexivity.
Qed.

Lemma deleteSession_last (st : AppState) (s : ChatSession) (newId : string)
    (t0 t1 : Z) :
  currentSessionId st = Some (id s) -> sessions st = [s] ->
  sessions (deleteSession (id s) newId t0 t1 st) = [newSession newId t0 t1]
  /\ currentSessionId (deleteSession (id s) newId t0 t1 st) = Some newId
  /\ chatSession (deleteSession (id s) newId t0 t1 st)
     = startNewChat (chatSession st).
Proof.
  intros Hcur Hs. unfold deleteSession. rewrite Hcur, Hs. simpl.
  rewrite !String.eqb_refl. simpl.
  now rewrite createNewSession_sessions, createNewSession_current,
    createNewSession_chat.
Qed.

(** Outside the data model, in a store whose one session is not the active
    one, deleting that session leaves no session at all. *)
Lemma deleteSession_stray_leaves_none :
  sessions strayStore = [newSession "s1" 1000 1000]
  /\ currentSessionId strayStore = None
  /\ sessions (deleteSession "s1" "s2" 2000 2000 strayStore) = [].
Proof. repeat split. Qed.

(** C6. In every store state (the active id names a session of the store,
    as the data model has it and every operation keeps it), deleting the
    last remaining session leaves exactly one session, never none: a fresh
    default one (title "New Search", the welcome message), which is active.
    And deleting the active session while others remain makes the first
    remaining one active and resumes the context from its messages. *)
Theorem deleteSession_active (st : AppState) (newId : string) (t0 t1 : Z) :
  (forall s, activeInStore st -> sessions st = [s] ->
     let st' := deleteSession (id s) newId t0 t1 st in
     sessions st' = [newSession newId t0 t1]
     /\ List.length (sessions st') = 1%nat
     /\ session_title (newSession newId t0 t1) = "New Search"
     /\ messages (newSession newId t0 t1) = [welcomeMsg]
     /\ currentSessionId st' = Some newId)
  /\ (forall sid first rest,
        currentSessionId st = Some sid ->
        filter (fun s => negb (id s =? sid)%string) (sessions st) = first :: rest ->
        let st' := deleteSession sid newId t0 t1 st in
        sessions st' = first :: rest
        /\ currentSessionId st' = Some (id first)
        /\ chatSession st' = resumeChat (messages first) (chatSession st)).
Proof.
  split.
  - intros s Hact Hs st'.
    pose proof (activeInStore_single st s Hact Hs) as Hcur.
    destruct (deleteSession_last st s newId t0 t1 Hcur Hs) as [Hs' [Hc' _]].
    unfold st'. rewrite Hs'. repeat split. exact Hc'.
  - intros sid first rest Hcur Hrem st'.
    unfold st', deleteSession. rewrite Hcur, Hrem. simpl.
    rewrite String.eqb_refl. repeat split.
Qed.

Lemma deleteSession_active_witness :
  activeInStore typedStore
  /\ sessions typedStore = [newSession "s1" 1000 1000]
  /\ sessions (deleteSession "s1" "s2" 2000 2000 typedStore)
     = [newSession "s2" 2000 2000].
Proof.
  assert (Hact : activeInStore typedStore).
  { exists (newSession "s1" 1000 1000). split; [now left | reflexivity]. }
  split; [exact Hact |]. split; [reflexivity |].
  exact (proj1 (proj1 (deleteSession_active typedStore "s2" 2000 2000)
                      (newSession "s1" 1000 1000) Hact eq_refl)).
Defined.

(** *** Sorting by [lastUpdated] *)

Lemma insert_In {A : Type} (cmp : A -> A -> Z) (x y : A) (l : list A) :
  In y (Js.insert cmp x l) <-> y = x \/ In y l.
Proof.
  induction l as [| z l IH]; simpl.
  - intuition congruence.
  - destruct (0 <? cmp x z); simpl; [rewrite IH |]; intuition congruence.
Qed.

Lemma sort_In {A : Type} (cmp : A -> A -> Z) (y : A) (l : list A) :
  In y (Js.sort cmp l) <-> In y l.
Proof.
  induction l as [| x l IH]; simpl.
  - tauto.
  - rewrite insert_In, IH. intuition congruence.
Qed.

Lemma insert_Permutation {A : Type} (cmp : A -> A -> Z) (x : A) (l : list A) :
  Permutation (x :: l) (Js.insert cmp x l).
Proof.
  induction l as [| z l IH]; simpl.
  - apply Permutation_refl.
  - destruct (0 <? cmp x z).
    + eapply perm_trans; [apply perm_swap | now apply perm_skip].
    + apply Permutation_refl.
Qed.

Lemma sort_Permutation {A : Type} (cmp : A -> A -> Z) (l : list A) :
  Permutation l (Js.sort cmp l).
Proof.
  induction l as [| x l IH]; simpl.
  - constructor.
  - eapply perm_trans; [apply perm_skip, IH | apply insert_Permutation].
Qed.

(** The head of the sorted list is a session of the list that no session
    of the list is more recent than. *)
Lemma sort_head_most_recent (l : list ChatSession) :
  match Js.sort byLastUpdatedDesc l with
  | [] => l = []
  | mostRecent :: _ =>
      In mostRecent l
      /\ forall s, In s l -> lastUpdated s <= lastUpdated mostRecent
  end.
Proof.
  induction l as [| x l IH]; simpl.
  - reflexivity.
  - destruct (Js.sort byLastUpdatedDesc l) as [| y r]; simpl.
    + subst l. split; [now left |]. intros s [<- | []]. lia.
    + destruct IH as [Hy Hmax]. unfold byLastUpdatedDesc at 1.
      destruct (0 <? lastUpdated y - lastUpdated x) eqn:E.
      * apply Z.ltb_lt in E. split; [now right |].
        intros s [<- | Hs]; [lia | now apply Hmax].
      * apply Z.ltb_ge in E. split; [now left |].
        intros s [<- | Hs]; [lia |]. specialize (Hmax s Hs). lia.
Qed.

(** *** Loading *)

Lemma load_no_data `{JsonParser} (jsonString : option string) (newId : string)
    (t0 t1 : Z) (st : AppState) :
  Js.truthy jsonString = false \/ Js.chain jsonString JSON_parse = None ->
  parseAndLoadSessions jsonString newId t0 t1 st
  = createNewSession newId t0 t1 st.
Proof.
  intros Hno. unfold parseAndLoadSessions.
  destruct (Js.truthy jsonString); [| reflexivity].
  destruct Hno as [Hf | ->]; [discriminate | reflexivity].
Qed.

Lemma load_empty_list `{JsonParser} (jsonString : option string) (newId : string)
    (t0 t1 : Z) (st : AppState) :
  Js.truthy jsonString = true -> Js.chain jsonString JSON_parse = Some [] ->
  parseAndLoadSessions jsonString newId t0 t1 st
  = createNewSession newId t0 t1 (setSessions (fun _ => []) st).
Proof. intros Ht Hp. unfold parseAndLoadSessions. now rewrite Ht, Hp. Qed.

Lemma load_sessions `{JsonParser} (jsonString : option string) (newId : string)
    (t0 t1 : Z) (st : AppState) (parsed : list ChatSession) :
  Js.truthy jsonString = true -> Js.chain jsonString JSON_parse = Some parsed ->
  parsed <> [] ->
  parseAndLoadSessions jsonString newId t0 t1 st
  = let sorted := Js.sort byLastUpdatedDesc parsed in
    let st1 := setSessions (fun _ => sorted) (setSessions (fun _ => parsed) st) in
    match sorted with
    | mostRecent :: _ =>
        withChat (resumeChat (messages mostRecent))
                 (setCurrentSessionId (Some (id mostRecent)) st1)
    | [] => st1
    end.
Proof.
  intros Ht Hp Hne. unfold parseAndLoadSessions. rewrite Ht, Hp.
  destruct parsed as [| s0 parsed0]; [congruence | reflexivity].
Qed.

Lemma load_on_empty_store `{JsonParser} (jsonString : option string)
    (newId : string) (t0 t1 : Z) (st : AppState) :
  sessions st = [] ->
  Js.truthy jsonString = false
  \/ Js.chain jsonString JSON_parse = None
  \/ Js.chain jsonString JSON_parse = Some [] ->
  sessions (parseAndLoadSessions jsonString newId t0 t1 st)
  = [newSession newId t0 t1]
  /\ currentSessionId (parseAndLoadSessions jsonString newId t0 t1 st)
     = Some newId
  /\ chatSession (parseAndLoadSessions jsonString newId t0 t1 st)
     = startNewChat (chatSession st).
Proof.
  intros Hempty Hno. destruct (Js.truthy jsonString) eqn:Ht.
  - destruct Hno as [Hf | [Hn | He]]; [discriminate | |].
    + rewrite load_no_data by (now right).
      rewrite createNewSession_sessions, createNewSession_current,
        createNewSession_chat, Hempty. repeat split.
    + rewrite load_empty_list by assumption.
      rewrite createNewSession_sessions, createNewSession_current,
        createNewSession_chat. repeat split.
  - rewrite load_no_data by (now left).
    rewrite createNewSession_sessions, createNewSession_current,
      createNewSession_chat, Hempty. repeat split.
Qed.

(** Loading nothing puts the default session in front of what the store
    holds: over a store that holds a session already, two sessions result. *)
Lemma parseAndLoadSessions_null_prepends :
  sessions typedStore = [newSession "s1" 1000 1000]
  /\ sessions (@parseAndLoadSessions noParse None "s2" 2000 2000 typedStore)
     = [newSession "s2" 2000 2000; newSession "s1" 1000 1000].
Proof. repeat split. Qed.

(** C8. With no data ([null], or the empty string) or with a blob that
    does not parse, the load, which finds the store empty (it runs when an
    identity is chosen, from the initial state or after a logout), leaves
    exactly one session, the default one (title "New Search", the welcome
    message alone), and it is active; so does the load of a parsed empty
    list, whatever the store held. With a parsed list of one or more
    sessions, a session of maximal [lastUpdated] becomes active, the
    context is resumed from its messages, and the store holds the sessions
    of the list. *)
Theorem parseAndLoadSessions_outcome `{JsonParser}
    (jsonString : option string) (newId : string) (t0 t1 : Z) (st : AppState) :
  let st' := parseAndLoadSessions jsonString newId t0 t1 st in
  let oneDefault :=
    sessions st' = [newSession newId t0 t1]
    /\ List.length (sessions st') = 1%nat
    /\ session_title (newSession newId t0 t1) = "New Search"
    /\ messages (newSession newId t0 t1) = [welcomeMsg]
    /\ msg_id welcomeMsg = "welcome"
    /\ currentSessionId st' = Some newId
    /\ chatSession st' = startNewChat (chatSession st) in
  (sessions st = [] ->
   Js.truthy jsonString = false \/ Js.chain jsonString JSON_parse = None ->
   oneDefault)
  /\ (Js.truthy jsonString = true ->
      Js.chain jsonString JSON_parse = Some [] ->
      oneDefault)
  /\ (forall parsed,
        Js.truthy jsonString = true ->
        Js.chain jsonString JSON_parse = Some parsed -> parsed <> [] ->
        exists mostRecent,
          In mostRecent parsed
          /\ (forall s, In s parsed -> lastUpdated s <= lastUpdated mostRecent)
          /\ currentSessionId st' = Some (id mostRecent)
          /\ chatSession st' = resumeChat (messages mostRecent) (chatSession st)
          /\ Permutation parsed (sessions st')).
Proof.
  intros st' oneDefault. unfold oneDefault, st'. split; [| split].
  - intros Hempty Hno. rewrite load_no_data by assumption.
    rewrite createNewSession_sessions, createNewSession_current,
      createNewSession_chat, Hempty. repeat split.
  - intros Ht Hp. rewrite load_empty_list by assumption.
    rewrite createNewSession_sessions, createNewSession_current,
      createNewSession_chat. repeat split.
  - intros parsed Ht Hp Hne. rewrite (load_sessions _ _ _ _ _ parsed) by assumption.
    cbv zeta.
    pose proof (sort_head_most_recent parsed) as Hhead.
    pose proof (sort_Permutation byLastUpdatedDesc parsed) as Hperm.
    destruct (Js.sort byLastUpdatedDesc parsed) as [| mostRecent r].
    + congruence.
    + destruct Hhead as [Hin Hmax]. exists mostRecent. repeat split; assumption.
Qed.

Lemma parseAndLoadSessions_outcome_witness :
  sessions (initialState false) = []
  /\ (Js.truthy None = false \/ Js.chain None (@JSON_parse noParse) = None)
  /\ sessions (@parseAndLoadSessions noParse None "s1" 1000 1000 (initialState false))
     = [newSession "s1" 1000 1000].
Proof.
  split; [reflexivity |]. split; [now left |].
  exact (proj1 (proj1 (@parseAndLoadSessions_outcome noParse None
                         "s1" 1000 1000 (initialState false))
                      eq_refl (or_introl eq_refl))).
Defined.

(** *** What the operations leave alone *)

Section Frame.

Context `{ChatService} `{JsonParser}.
Context {X : Type} (f : ChatSession -> X).
Hypothesis f_withMessages : forall g s, f (withMessages g s) = f s.

Lemma onCurrent_withMessages (cur : option string) (g : Message -> Message)
    (l : list ChatSession) :
  map (fun s => (id s, f s)) (onCurrent cur (withMessages g) l)
  = map (fun s => (id s, f s)) l.
Proof.
  unfold onCurrent. rewrite map_map. apply map_ext. intros s.
  destruct (isCurrent (id s) cur); [| reflexivity].
  now rewrite f_withMessages.
Qed.

Lemma settleTurn_keeps (p : Pending) (st : AppState) :
  map (fun s => (id s, f s)) (sessions (settleTurn p st))
  = map (fun s => (id s, f s)) (sessions st).
Proof.
  unfold settleTurn. destruct (outcome p); simpl; apply onCurrent_withMessages.
Qed.

Lemma kept_of_In (s : ChatSession) (l : list ChatSession) :
  In s l -> In (id s, f s) (map (fun s => (id s, f s)) l).
Proof. intros Hin. apply in_map_iff. now exists s. Qed.

(** Every operation but the submission of a turn keeps [f] on the
    sessions it does not bring in itself. *)
Lemma step_keeps (op : Op) (st : AppState) :
  (forall uuid1 uuid2 now, op <> OpSubmit uuid1 uuid2 now) ->
  keeps f op st (step op st).
Proof.
  intros Hop s'.
  destruct op as [who | jsonString newId t0 t1 | newId t0 t1 | sid newId t0 t1
                 | sid | | input | uuid1 uuid2 now | p]; simpl.
  - rewrite identify_sessions. intros Hin. left. now apply kept_of_In.
  - destruct (loggedOut st); [intros Hin; left; now apply kept_of_In |].
    unfold parseAndLoadSessions.
    destruct (Js.truthy jsonString).
    + destruct (Js.chain jsonString JSON_parse) as [parsed |].
      * destruct (0 <? Z.of_nat (List.length parsed)).
        -- cbv zeta.
           destruct (Js.sort byLastUpdatedDesc parsed) as [| m r] eqn:Es; simpl.
           ++ intros [].
           ++ intros Hin. right. apply in_or_app. left.
              apply (sort_In byLastUpdatedDesc). now rewrite Es.
        -- rewrite createNewSession_sessions. simpl.
           intros [<- | Hin].
           ++ right. apply in_or_app. right. now left.
           ++ right. apply in_or_app. now left.
      * rewrite createNewSession_sessions. simpl.
        intros [<- | Hin]; [right; now left | left; now apply kept_of_In].
    + rewrite createNewSession_sessions.
      intros [<- | Hin].
      * right. apply in_or_app. right. now left.
      * left. now apply kept_of_In.
  - rewrite createNewSession_sessions.
    intros [<- | Hin]; [right; now left | left; now apply kept_of_In].
  - rewrite deleteSession_sessions. cbv zeta.
    assert (Hfilter : In s' (filter (fun s => negb (id s =? sid)%string) (sessions st)) ->
                      In (id s', f s') (map (fun s => (id s, f s)) (sessions st))).
    { intros Hin. apply filter_In in Hin. now apply kept_of_In. }
    destruct (isCurrent sid (currentSessionId st)); [| left; now apply Hfilter].
    destruct (filter _ (sessions st)) as [| first rest].
    + intros [<- | []]. right. now left.
    + intros Hin. left. now apply Hfilter.
  - unfold onSelectSession.
    assert (Hs : sessions
              (match find (fun x => (id x =? sid)%string) (sessions st) with
               | Some s => withChat (resumeChat (messages s))
                             (setCurrentSessionId (Some sid) st)
               | None => st
               end) = sessions st).
    { now destruct (find _ (sessions st)). }
    destruct (isMobile st); simpl; rewrite Hs; intros Hin; left;
      now apply kept_of_In.
  - intros [].
  - intros Hin. left. now apply kept_of_In.
  - now destruct (Hop uuid1 uuid2 now).
  - intros Hin. left. rewrite <- (settleTurn_keeps p st).
    now apply kept_of_In.
Qed.

End Frame.

(** No operation but the submission of a turn changes the title of a
    session. *)
Corollary step_keeps_title `{ChatService} `{JsonParser} (op : Op) (st : AppState) :
  (forall uuid1 uuid2 now, op <> OpSubmit uuid1 uuid2 now) ->
  keeps session_title op st (step op st).
Proof. apply step_keeps. reflexivity. Qed.

Lemma onCurrent_submit_lastUpdated (cur : option string) (userText : string)
    (now : Z) (m1 m2 : Message) (l : list ChatSession) :
  Forall2 (fun s s' =>
             id s' = id s
             /\ if isCurrent (id s) cur
                then lastUpdated s' = now
                else lastUpdated s' = lastUpdated s)
          l (onCurrent cur (submitUpdate userText now m1 m2) l).
Proof.
  induction l as [| s l IH]; simpl; constructor; [| exact IH].
  destruct (isCurrent (id s) cur) eqn:E; simpl; rewrite ?E; now split.
Qed.

(** The guest's store is one the application gets into: the guest is
    chosen, the load finds nothing, the question is typed. *)
Lemma guestStore_reachable : @reachableWith offline noParse false guestStore.
Proof.
  exact (@reachable_step offline noParse false (OpType "condos in Silom") _
           (@reachable_step offline noParse true (OpLoad None "s1" 1000 1000) _
              (@reachable_step offline noParse false (OpIdentify None) _
                 (@reachable_initial offline noParse false) eq_refl)
              eq_refl)
           eq_refl).
Qed.

(** A guest has typed a question into their first session. Submitting the
    turn changes the session's [lastUpdated] while the turn is still in
    flight, its placeholder thinking; the settling of the turn leaves the
    new value as it is. *)
Lemma submitTurn_changes_lastUpdated :
  let st' := @step offline noParse (OpSubmit "m1" "m2" 2000) guestStore in
  let p := {| turn_session := Some "s1"; thinkingMsgId := "m2";
              outcome := Fulfilled {| reply_text := APOLOGY; reply_places := [] |} |} in
  @reachableWith offline noParse false guestStore
  /\ available false (OpSubmit "m1" "m2" 2000) guestStore = true
  /\ map (fun s => (id s, lastUpdated s)) (sessions guestStore) = [("s1", 1000)]
  /\ map (fun s => (id s, lastUpdated s)) (sessions st') = [("s1", 2000)]
  /\ isLoading st' = true
  /\ map (fun s => map isThinking (messages s)) (sessions st')
     = [[None; None; Some true]]
  /\ snd (@submitTurn offline "m1" "m2" 2000 guestStore) = Some p
  /\ map (fun s => (id s, lastUpdated s))
         (sessions (@step offline noParse (OpSettle p) st'))
     = [("s1", 2000)].
Proof. split; [exact guestStore_reachable | repeat split]. Qed.

(** C3, amended. [lastUpdated] changes when a turn is submitted, and then
    only: a submission that passes the guard sets it to the clock's reading
    on the active session and leaves it on the others (one that does not
    pass leaves the sessions as they are); the settling of a turn leaves it
    on every session; under every other operation each session of the
    store was brought in by the operation (created, or loaded) or has the
    [lastUpdated] it had. *)
Theorem lastUpdated_changes_on_submit_only `{ChatService} `{JsonParser}
    (op : Op) (st : AppState) :
  match op with
  | OpSubmit uuid1 uuid2 now =>
      if (Js.trim (inputText st) =? "")%string || isLoading st
         || negb (Js.truthy (currentSessionId st))
      then sessions (step op st) = sessions st
      else Forall2 (fun s s' =>
                      id s' = id s
                      /\ lastUpdated s'
                         = if isCurrent (id s) (currentSessionId st)
                           then now
                           else lastUpdated s)
                   (sessions st) (sessions (step op st))
  | OpSettle p =>
      map (fun s => (id s, lastUpdated s)) (sessions (step op st))
      = map (fun s => (id s, lastUpdated s)) (sessions st)
  | _ => keeps lastUpdated op st (step op st)
  end.
Proof.
  destruct op as [who | jsonString newId t0 t1 | newId t0 t1 | sid newId t0 t1
                 | sid | | input | uuid1 uuid2 now | p];
    try (apply step_keeps; [reflexivity | discriminate]).
  - simpl. unfold submitTurn.
    destruct ((Js.trim (inputText st) =? "")%string || isLoading st
              || negb (Js.truthy (currentSessionId st))); simpl.
    + reflexivity.
    + destruct (sendMessageToGemini _ _ _) as [result chat]. simpl.
      eapply Forall2_impl; [| apply onCurrent_submit_lastUpdated].
      intros s s' [Hid Hlu]. split; [assumption |].
      now destruct (isCurrent (id s) (currentSessionId st)).
  - apply settleTurn_keeps. reflexivity.
Qed.

(** *** The active session is a session of the store *)

Lemma onCurrent_ids (cur : option string) (g : ChatSession -> ChatSession)
    (l : list ChatSession) :
  (forall s, id (g s) = id s) ->
  map id (onCurrent cur g l) = map id l.
Proof.
  intros Hg. unfold onCurrent. rewrite map_map. apply map_ext. intros s.
  destruct (isCurrent (id s) cur); [apply Hg | reflexivity].
Qed.

Lemma activeInStore_ids (st st' : AppState) :
  map id (sessions st') = map id (sessions st) ->
  currentSessionId st' = currentSessionId st ->
  activeInStore st -> activeInStore st'.
Proof.
  unfold activeInStore. intros Hids ->.
  destruct (currentSessionId st) as [c |].
  - intros [s [Hin Hc]].
    assert (Hc' : In c (map id (sessions st'))).
    { rewrite Hids. apply in_map_iff. now exists s. }
    apply in_map_iff in Hc'. destruct Hc' as [s' [Hid Hin']]. now exists s'.
  - intros Hnil. rewrite Hnil in Hids. now apply map_eq_nil in Hids.
Qed.

Lemma createNewSession_active (newId : string) (t0 t1 : Z) (st : AppState) :
  activeInStore (createNewSession newId t0 t1 st).
Proof.
  unfold activeInStore.
  rewrite createNewSession_current, createNewSession_sessions.
  exists (newSession newId t0 t1). split; [now left | reflexivity].
Qed.

Lemma initialState_active (mobile : bool) : activeInStore (initialState mobile).
Proof. reflexivity. Qed.

(** Every operation keeps the active id inside the store. *)
Lemma step_activeInStore `{ChatService} `{JsonParser} (op : Op) (st : AppState) :
  activeInStore st -> activeInStore (step op st).
Proof.
  intros Hact.
  destruct op as [who | jsonString newId t0 t1 | newId t0 t1 | sid newId t0 t1
                 | sid | | input | uuid1 uuid2 now | p]; simpl.
  - unfold activeInStore in *. now destruct who.
  - destruct (loggedOut st); [exact Hact |].
    unfold parseAndLoadSessions.
    destruct (Js.truthy jsonString); [| apply createNewSession_active].
    destruct (Js.chain jsonString JSON_parse) as [parsed |];
      [| apply createNewSession_active].
    destruct (0 <? Z.of_nat (List.length parsed)) eqn:Hpos;
      [| apply createNewSession_active].
    cbv zeta. pose proof (sort_head_most_recent parsed) as Hhead.
    destruct (Js.sort byLastUpdatedDesc parsed) as [| m r].
    + subst parsed. discriminate.
    + exists m. split; [now left | reflexivity].
  - apply createNewSession_active.
  - unfold deleteSession.
    destruct (isCurrent sid (currentSessionId st)) eqn:Ecur.
    + destruct (filter _ (sessions st)) as [| first rest].
      * apply createNewSession_active.
      * exists first. split; [now left | reflexivity].
    + unfold activeInStore in *. simpl.
      destruct (currentSessionId st) as [c |].
      * destruct Hact as [s [Hin Hc]]. exists s. split; [| assumption].
        apply filter_In. split; [assumption |].
        simpl in Ecur. rewrite Hc. rewrite String.eqb_sym. now rewrite Ecur.
      * now rewrite Hact.
  - unfold onSelectSession.
    assert (Hsel : activeInStore
              (match find (fun x => (id x =? sid)%string) (sessions st) with
               | Some s => withChat (resumeChat (messages s))
                             (setCurrentSessionId (Some sid) st)
               | None => st
               end)).
    { destruct (find _ (sessions st)) as [s |] eqn:Ef; [| assumption].
      apply find_some in Ef. destruct Ef as [Hin Heq].
      exists s. split; [assumption | now apply String.eqb_eq]. }
    destruct (isMobile st); exact Hsel.
  - reflexivity.
  - exact Hact.
  - unfold submitTurn.
    destruct ((Js.trim (inputText st) =? "")%string || isLoading st
              || negb (Js.truthy (currentSessionId st))); [exact Hact |].
    destruct (sendMessageToGemini _ _ _) as [result chat]. simpl.
    eapply activeInStore_ids; [| | exact Hact]; simpl; [| reflexivity].
    now apply onCurrent_ids.
  - unfold settleTurn.
    eapply activeInStore_ids; [| | exact Hact].
    + destruct (outcome p); simpl; now apply onCurrent_ids.
    + now destruct (outcome p).
Qed.

(** *** The states the application gets into *)

Lemma createNewSession_identity (newId : string) (t0 t1 : Z) (st : AppState) :
  loggedOut (createNewSession newId t0 t1 st) = loggedOut st.
Proof. unfold createNewSession, loggedOut. simpl. now destruct (isMobile st). Qed.

Lemma parseAndLoadSessions_identity `{JsonParser} (jsonString : option string)
    (newId : string) (t0 t1 : Z) (st : AppState) :
  loggedOut (parseAndLoadSessions jsonString newId t0 t1 st) = loggedOut st.
Proof.
  unfold parseAndLoadSessions.
  destruct (Js.truthy jsonString); [| apply createNewSession_identity].
  destruct (Js.chain jsonString JSON_parse) as [parsed |];
    [| apply createNewSession_identity].
  destruct (0 <? Z.of_nat (List.length parsed)).
  - cbv zeta. now destruct (Js.sort byLastUpdatedDesc parsed).
  - now rewrite createNewSession_identity.
Qed.

Lemma identify_loggedIn (who : option User) (st : AppState) :
  loggedOut (identify who st) = false.
Proof. now destruct who. Qed.

Lemma identify_current (who : option User) (st : AppState) :
  currentSessionId (identify who st) = currentSessionId st.
Proof. now destruct who. Qed.

Lemma step_loggedOut `{ChatService} `{JsonParser} (op : Op) (st : AppState) :
  loggedOut (step op st)
  = match op with
    | OpIdentify _ => false
    | OpLogout => true
    | _ => loggedOut st
    end.
Proof.
  destruct op as [who | jsonString newId t0 t1 | newId t0 t1 | sid newId t0 t1
                 | sid | | input | uuid1 uuid2 now | p]; simpl.
  - apply identify_loggedIn.
  - destruct (loggedOut st) eqn:E; [exact E |].
    now rewrite parseAndLoadSessions_identity.
  - apply createNewSession_identity.
  - unfold deleteSession.
    destruct (isCurrent sid (currentSessionId st)); [| reflexivity].
    destruct (filter _ (sessions st)); [| reflexivity].
    now rewrite createNewSession_identity.
  - unfold onSelectSession.
    destruct (find _ (sessions st)); now destruct (isMobile st).
  - reflexivity.
  - reflexivity.
  - unfold submitTurn.
    destruct ((Js.trim (inputText st) =? "")%string || isLoading st
              || negb (Js.truthy (currentSessionId st))); [reflexivity |].
    now destruct (sendMessageToGemini _ _ _).
  - unfold settleTurn. now destruct (outcome p).
Qed.

Lemma settleTurn_empty (p : Pending) (st : AppState) :
  sessions st = [] -> sessions (settleTurn p st) = [].
Proof.
  intros Hnil. unfold settleTurn. destruct (outcome p); simpl; now rewrite Hnil.
Qed.

Lemma settleTurn_current (p : Pending) (st : AppState) :
  currentSessionId (settleTurn p st) = currentSessionId st.
Proof. unfold settleTurn. now destruct (outcome p). Qed.

(** When an operation leaves no session active: it is the logout, or none
    was active and the operation is not one that activates a session. *)
Lemma step_current_None `{ChatService} `{JsonParser} (op : Op) (st : AppState) :
  currentSessionId (step op st) = None ->
  op = OpLogout
  \/ (currentSessionId st = None
      /\ match op with
         | OpCreate _ _ _ => False
         | OpLoad _ _ _ _ => loggedOut st = true
         | _ => True
         end).
Proof.
  destruct op as [who | jsonString newId t0 t1 | newId t0 t1 | sid newId t0 t1
                 | sid | | input | uuid1 uuid2 now | p]; simpl.
  - rewrite identify_current. intros Hn. right. now split.
  - destruct (loggedOut st); [intros Hn; right; now split |].
    unfold parseAndLoadSessions.
    destruct (Js.truthy jsonString);
      [| now rewrite createNewSession_current].
    destruct (Js.chain jsonString JSON_parse) as [parsed |];
      [| now rewrite createNewSession_current].
    destruct (0 <? Z.of_nat (List.length parsed)) eqn:Hpos;
      [| now rewrite createNewSession_current].
    cbv zeta. pose proof (sort_head_most_recent parsed) as Hhead.
    destruct (Js.sort byLastUpdatedDesc parsed) as [| m r]; [| discriminate].
    subst parsed. discriminate.
  - now rewrite createNewSession_current.
  - unfold deleteSession.
    destruct (currentSessionId st) as [c |] eqn:Ec; simpl.
    + destruct (sid =? c)%string.
      * destruct (filter _ (sessions st)); [| discriminate].
        now rewrite createNewSession_current.
      * simpl. now rewrite Ec.
    + intros _. right. now split.
  - unfold onSelectSession. intros Hn. right. split; [| exact I].
    destruct (find _ (sessions st)); destruct (isMobile st); simpl in Hn;
      first [discriminate | exact Hn].
  - now left.
  - intros Hn. right. now split.
  - unfold submitTurn.
    destruct ((Js.trim (inputText st) =? "")%string || isLoading st
              || negb (Js.truthy (currentSessionId st))).
    + intros Hn. right. now split.
    + destruct (sendMessageToGemini _ _ _). simpl. intros Hn. right. now split.
  - unfold settleTurn. destruct (outcome p); simpl; intros Hn; right; now split.
Qed.

(** The renders the application commits: the active id is that of a session
    of the store; until an identity is chosen and its sessions are loaded
    the store is empty; afterwards a session is active. *)
Lemma reachableWith_invariant `{ChatService} `{JsonParser} (pending : bool)
    (st : AppState) :
  reachableWith pending st ->
  activeInStore st
  /\ (pending = true \/ loggedOut st = true ->
      sessions st = [] /\ currentSessionId st = None)
  /\ (pending = false -> loggedOut st = false -> currentSessionId st <> None).
Proof.
  induction 1 as [mobile | pending op st Hreach [Hact [Hempty Hsome]] Hav].
  - split; [apply initialState_active |].
    split; [intros _; now split | discriminate].
  - split; [now apply step_activeInStore |].
    rewrite step_loggedOut.
    destruct op as [who | jsonString newId t0 t1 | newId t0 t1 | sid newId t0 t1
                   | sid | | input | uuid1 uuid2 now | p];
      cbn [available pendingAfter] in Hav |- *;
      try (apply andb_true_iff in Hav; destruct Hav as [Hp Hl];
           apply negb_true_iff in Hp; try apply negb_true_iff in Hl; subst pending).
    + destruct (Hempty (or_intror Hl)) as [Hs Hc].
      cbn [step]. rewrite identify_sessions, identify_current.
      split; [intros _; now split | discriminate].
    + subst pending. destruct (Hempty (or_introl eq_refl)) as [Hs Hc]. split.
      * intros [Hf | Hlo]; [discriminate |]. cbn [step]. rewrite Hlo. now split.
      * intros _ Hli Hn. apply step_current_None in Hn.
        destruct Hn as [Hn | [_ Hlo]]; [discriminate | congruence].
    + split; [intros [Hf | Hlo]; congruence |].
      intros _ _ Hn. apply step_current_None in Hn.
      destruct Hn as [Hn | [_ []]]. discriminate.
    + split; [intros [Hf | Hlo]; congruence |].
      intros _ _ Hn. apply step_current_None in Hn.
      destruct Hn as [Hn | [Hn _]]; [discriminate | now apply (Hsome eq_refl Hl)].
    + split; [intros [Hf | Hlo]; congruence |].
      intros _ _ Hn. apply step_current_None in Hn.
      destruct Hn as [Hn | [Hn _]]; [discriminate | now apply (Hsome eq_refl Hl)].
    + split; [intros _; now split | discriminate].
    + split; [intros [Hf | Hlo]; congruence |].
      intros _ _ Hn. apply step_current_None in Hn.
      destruct Hn as [Hn | [Hn _]]; [discriminate | now apply (Hsome eq_refl Hl)].
    + split; [intros [Hf | Hlo]; congruence |].
      intros _ _ Hn. apply step_current_None in Hn.
      destruct Hn as [Hn | [Hn _]]; [discriminate | now apply (Hsome eq_refl Hl)].
    + cbn [step]. rewrite settleTurn_current. split.
      * intros Hor. destruct (Hempty Hor) as [Hs Hc].
        split; [now apply settleTurn_empty | exact Hc].
      * exact Hsome.
Qed.

(** On the login screen the store is empty, and the active id is always
    that of a session of the store. *)
Lemma reachable_invariant `{ChatService} `{JsonParser} (st : AppState) :
  reachable st ->
  activeInStore st /\ (loggedOut st = true -> sessions st = []).
Proof.
  intros [pending Hreach].
  destruct (reachableWith_invariant pending st Hreach) as [Hact [Hempty _]].
  split; [exact Hact |]. intros Hlo. now apply Hempty; right.
Qed.

(** In the running application, then: the last remaining session is the
    active one, and deleting it leaves exactly the fresh default session. *)
Corollary reachable_deleteSession_last `{ChatService} `{JsonParser}
    (st : AppState) (s : ChatSession) (newId : string) (t0 t1 : Z) :
  reachable st -> sessions st = [s] ->
  sessions (step (OpDelete (id s) newId t0 t1) st) = [newSession newId t0 t1].
Proof.
  intros Hreach Hs. destruct (reachable_invariant st Hreach) as [Hact _].
  pose proof (activeInStore_single st s Hact Hs) as Hcur.
  exact (proj1 (deleteSession_last st s newId t0 t1 Hcur Hs)).
Qed.

(** And the load that follows the choice of an identity finds the store
    empty: when the identity's storage holds nothing, or nothing that
    parses, or an empty list, it leaves exactly the default session. *)
Corollary reachable_load_no_data `{ChatService} `{JsonParser}
    (st : AppState) (jsonString : option string) (newId : string) (t0 t1 : Z) :
  reachableWith true st -> loggedOut st = false ->
  Js.truthy jsonString = false
  \/ Js.chain jsonString JSON_parse = None
  \/ Js.chain jsonString JSON_parse = Some [] ->
  sessions (step (OpLoad jsonString newId t0 t1) st)
  = [newSession newId t0 t1].
Proof.
  intros Hreach Hin Hno. cbn [step]. rewrite Hin.
  destruct (reachableWith_invariant true st Hreach) as [_ [Hempty _]].
  destruct (Hempty (or_introl eq_refl)) as [Hs _].
  exact (proj1 (load_on_empty_store jsonString newId t0 t1 st Hs Hno)).
Qed.

(** ** A whole turn *)

(** The scenario of the spec: the transport rejects, and the placeholder
    becomes the apology, with no places and no longer thinking. *)
Example handleSendMessage_offline :
  let st' := @handleSendMessage offline "m1" "m2" 2000 typedStore in
  map messages (sessions st')
  = [[welcomeMsg;
      userMsg "m1" "condos in Silom";
      {| msg_id := "m2"; role := model_role; text := APOLOGY;
         places := Some []; isThinking := Some false |}]]
  /\ isLoading st' = false.
Proof. split; reflexivity. Qed.

(** The scenario of the spec: a submission while a turn is in flight does
    nothing. *)
Example submitTurn_in_flight :
  let st1 := fst (@submitTurn silent "m1" "m2" 2000 typedStore) in
  let st2 := setInputText "hotels" st1 in
  isLoading st1 = true
  /\ @submitTurn silent "m3" "m4" 3000 st2 = (st2, None).
Proof. split; reflexivity. Qed.

(** * Further properties *)

From Stdlib Require Import Sorted.

Import View.
Import Browser.
Import Fixtures.

(** ** The order of the loaded sessions *)

Lemma insert_sorted (x : ChatSession) (l : list ChatSession) :
  StronglySorted (fun a b => lastUpdated b <= lastUpdated a) l ->
  StronglySorted (fun a b => lastUpdated b <= lastUpdated a)
                 (Js.insert byLastUpdatedDesc x l).
Proof.
  induction 1 as [| y r Hr IH Hy]; simpl.
  - repeat constructor.
  - unfold byLastUpdatedDesc at 1.
    destruct (0 <? lastUpdated y - lastUpdated x) eqn:E.
    + apply Z.ltb_lt in E. constructor; [exact IH |].
      apply Forall_forall. intros z Hz. apply insert_In in Hz.
      destruct Hz as [-> | Hz]; [lia |].
      rewrite Forall_forall in Hy. now apply Hy.
    + apply Z.ltb_ge in E. constructor; [now constructor |].
      constructor; [lia |].
      rewrite Forall_forall in Hy |- *. intros z Hz.
      specialize (Hy z Hz). lia.
Qed.

Lemma sort_sorted (l : list ChatSession) :
  StronglySorted (fun a b => lastUpdated b <= lastUpdated a)
                 (Js.sort byLastUpdatedDesc l).
Proof.
  induction l as [| x l IH]; simpl; [constructor | now apply insert_sorted].
Qed.

(** An inserted session does not pass a session as recent as itself. *)
Lemma insert_stable (v : Z) (x : ChatSession) (l : list ChatSession) :
  filter (fun s => lastUpdated s =? v) (Js.insert byLastUpdatedDesc x l)
  = filter (fun s => lastUpdated s =? v) (x :: l).
Proof.
  induction l as [| y r IH]; [reflexivity |]. simpl.
  unfold byLastUpdatedDesc at 1.
  destruct (0 <? lastUpdated y - lastUpdated x) eqn:E; [| reflexivity].
  apply Z.ltb_lt in E. simpl. rewrite IH. simpl.
  destruct (lastUpdated x =? v) eqn:Ex; destruct (lastUpdated y =? v) eqn:Ey;
    try reflexivity.
  apply Z.eqb_eq in Ex, Ey. lia.
Qed.

Lemma sort_stable (v : Z) (l : list ChatSession) :
  filter (fun s => lastUpdated s =? v) (Js.sort byLastUpdatedDesc l)
  = filter (fun s => lastUpdated s =? v) l.
Proof.
  induction l as [| x l IH]; [reflexivity |]. simpl.
  rewrite insert_stable. simpl. now rewrite IH.
Qed.

(** X1. After the load of a stored list of one or more sessions, the store
    holds the sessions of the list from the most to the least recently
    updated, and sessions updated at the same time keep the order they were
    stored in. *)
Theorem loaded_sessions_most_recent_first `{JsonParser}
    (jsonString : option string) (newId : string) (t0 t1 : Z) (st : AppState)
    (parsed : list ChatSession) :
  Js.truthy jsonString = true ->
  Js.chain jsonString JSON_parse = Some parsed ->
  parsed <> [] ->
  let loaded := sessions (parseAndLoadSessions jsonString newId t0 t1 st) in
  StronglySorted (fun a b => lastUpdated b <= lastUpdated a) loaded
  /\ Permutation parsed loaded
  /\ forall v, filter (fun s => lastUpdated s =? v) loaded
               = filter (fun s => lastUpdated s =? v) parsed.
Proof.
  intros Ht Hp Hne loaded. unfold loaded.
  rewrite (load_sessions _ _ _ _ _ parsed) by assumption. cbv zeta.
  assert (Hs : sessions
            (match Js.sort byLastUpdatedDesc parsed with
             | [] =>
                 setSessions (fun _ => Js.sort byLastUpdatedDesc parsed)
                   (setSessions (fun _ => parsed) st)
             | mostRecent :: _ =>
                 withChat (resumeChat (messages mostRecent))
                   (setCurrentSessionId (Some (id mostRecent))
                      (setSessions (fun _ => Js.sort byLastUpdatedDesc parsed)
                         (setSessions (fun _ => parsed) st)))
             end) = Js.sort byLastUpdatedDesc parsed).
  { now destruct (Js.sort byLastUpdatedDesc parsed). }
  rewrite Hs. split; [apply sort_sorted |].
  split; [apply sort_Permutation | intros v; apply sort_stable].
Qed.

Lemma loaded_sessions_most_recent_first_witness :
  Js.truthy (Some "stored") = true
  /\ Js.chain (Some "stored") (@JSON_parse stored) = Some [older; newer]
  /\ [older; newer] <> []
  /\ StronglySorted (fun a b => lastUpdated b <= lastUpdated a)
       (sessions (@parseAndLoadSessions stored (Some "stored") "s" 0 0
                    (initialState false))).
Proof.
  assert (Hne : [older; newer] <> []) by discriminate.
  split; [reflexivity |]. split; [reflexivity |]. split; [exact Hne |].
  exact (proj1 (@loaded_sessions_most_recent_first stored (Some "stored") "s" 0 0
                  (initialState false) [older; newer] eq_refl eq_refl Hne)).
Defined.

Example loaded_sessions_example :
  sessions (@parseAndLoadSessions stored (Some "stored") "s" 0 0
              (initialState false))
  = [newer; older].
Proof. reflexivity. Qed.

(** ** The shape of the store in the running application *)

(** X2. The renders the application commits show the store in one of two
    shapes. Until the sessions of a chosen identity are loaded (on the
    login screen, and in the render between the choice of an identity and
    the effect that loads) it is empty, with no active session. Once they
    are loaded it is never empty, and the active id is that of one of its
    sessions. *)
Theorem reachable_store_shape `{ChatService} `{JsonParser} (pending : bool)
    (st : AppState) :
  reachableWith pending st ->
  if pending || loggedOut st
  then sessions st = [] /\ currentSessionId st = None
  else exists s, In s (sessions st) /\ currentSessionId st = Some (id s).
Proof.
  intros Hreach.
  destruct (reachableWith_invariant pending st Hreach) as [Hact [Hempty Hsome]].
  destruct pending; [now apply Hempty; left |].
  destruct (loggedOut st) eqn:Hlo; simpl; [now apply Hempty; right |].
  specialize (Hsome eq_refl eq_refl). unfold activeInStore in Hact.
  destruct (currentSessionId st) as [c |]; [| congruence].
  destruct Hact as [s [Hin <-]]. now exists s.
Qed.

Lemma reachable_store_shape_witness :
  @reachableWith offline noParse false guestStore
  /\ exists s, In s (sessions guestStore)
               /\ currentSessionId guestStore = Some (id s).
Proof.
  split; [exact guestStore_reachable |].
  exact (@reachable_store_shape offline noParse false guestStore
           guestStore_reachable).
Defined.

(** The render between the choice of the guest identity and the load: the
    main screen, no session yet. *)
Example pending_render :
  @reachableWith offline noParse true (identify None (initialState false))
  /\ loggedOut (identify None (initialState false)) = false
  /\ sessions (identify None (initialState false)) = []
  /\ getCurrentMessages (identify None (initialState false)) = [].
Proof.
  split; [| repeat split].
  exact (@reachable_step offline noParse false (OpIdentify None) _
           (@reachable_initial offline noParse false) eq_refl).
Qed.

(** ** What is on display *)

(** X3. What [getCurrentMessages] gives the renders the application
    commits: the empty list it falls back on until the sessions of a
    chosen identity are loaded (no session is active then); afterwards
    the messages of a session of the store that has the active id. *)
Theorem displayed_messages_of_active_session `{ChatService} `{JsonParser}
    (pending : bool) (st : AppState) :
  reachableWith pending st ->
  if pending || loggedOut st
  then getCurrentMessages st = []
  else exists s, In s (sessions st)
                 /\ currentSessionId st = Some (id s)
                 /\ getCurrentMessages st = messages s.
Proof.
  intros Hreach.
  destruct (reachableWith_invariant pending st Hreach) as [Hact [Hempty Hsome]].
  assert (Hfallback : sessions st = [] -> getCurrentMessages st = []).
  { intros Hs. unfold getCurrentMessages. now rewrite Hs. }
  destruct pending; [now apply Hfallback, Hempty; left |].
  destruct (loggedOut st) eqn:Hlo; simpl; [now apply Hfallback, Hempty; right |].
  specialize (Hsome eq_refl eq_refl). unfold activeInStore in Hact.
  destruct (currentSessionId st) as [c |] eqn:Hcur; [| congruence].
  destruct Hact as [s0 [Hs0 Hc0]]. subst c.
  unfold getCurrentMessages. rewrite Hcur.
  destruct (find (fun s => isCurrent (id s) (Some (id s0))) (sessions st))
    as [s |] eqn:Ef.
  - apply find_some in Ef. destruct Ef as [Hs Hc]. exists s.
    simpl in Hc. apply String.eqb_eq in Hc. rewrite Hc. now repeat split.
  - apply (find_none _ _ Ef) in Hs0. simpl in Hs0.
    now rewrite String.eqb_refl in Hs0.
Qed.

Lemma displayed_messages_of_active_session_witness :
  @reachableWith offline noParse false guestStore
  /\ exists s, In s (sessions guestStore)
               /\ currentSessionId guestStore = Some (id s)
               /\ getCurrentMessages guestStore = messages s.
Proof.
  split; [exact guestStore_reachable |].
  exact (@displayed_messages_of_active_session offline noParse false guestStore
           guestStore_reachable).
Defined.

(** ** The guard of a turn *)

Lemma trimEnd_empty (s : string) :
  Js.trimEnd s = "" <-> forallb Js.isWhiteSpace (list_ascii_of_string s) = true.
Proof.
  induction s as [| c r IH]; simpl.
  - tauto.
  - destruct (Js.trimEnd r) as [| c' r'] eqn:Er.
    + destruct (Js.isWhiteSpace c); simpl.
      * split; intros _; [now apply IH | reflexivity].
      * split; discriminate.
    + split; [discriminate |]. intros Hall.
      apply andb_true_iff in Hall. destruct Hall as [_ Hall].
      apply IH in Hall. discriminate.
Qed.

Lemma trim_empty (s : string) :
  Js.trim s = "" <-> forallb Js.isWhiteSpace (list_ascii_of_string s) = true.
Proof.
  unfold Js.trim. induction s as [| c r IH]; simpl.
  - tauto.
  - destruct (Js.isWhiteSpace c) eqn:Ec; simpl; [exact IH |].
    split; [| discriminate].
    destruct (Js.trimEnd r); rewrite ?Ec; discriminate.
Qed.

(** X4. A turn is submitted exactly when the input has a character that is
    not white space, no turn is in flight and a session is active; the
    text then sent is the trimmed input, which is not empty, and the input
    field is cleared. Otherwise nothing at all changes. *)
Theorem submitTurn_guard `{ChatService} (uuid1 uuid2 : string) (now : Z)
    (st : AppState) :
  let accepted :=
    negb (forallb Js.isWhiteSpace (list_ascii_of_string (inputText st)))
    && negb (isLoading st) && Js.truthy (currentSessionId st) in
  if accepted
  then exists st' p,
         submitTurn uuid1 uuid2 now st = (st', Some p)
         /\ Js.trim (inputText st) <> ""
         /\ inputText st' = ""
         /\ isLoading st' = true
         /\ turn_session p = currentSessionId st
         /\ fst (sendMessageToGemini (Js.trim (inputText st)) (location st)
                                     (chatSession st)) = outcome p
  else submitTurn uuid1 uuid2 now st = (st, None).
Proof.
  intros accepted. unfold accepted, submitTurn.
  destruct (Js.trim (inputText st) =? "")%string eqn:Et.
  - apply String.eqb_eq in Et. apply trim_empty in Et. now rewrite Et.
  - apply String.eqb_neq in Et.
    assert (Hw : forallb Js.isWhiteSpace (list_ascii_of_string (inputText st))
                 = false).
    { apply not_true_is_false. intros Hall. now apply trim_empty in Hall. }
    rewrite Hw. simpl.
    destruct (isLoading st); simpl; [reflexivity |].
    destruct (Js.truthy (currentSessionId st)); simpl; [| reflexivity].
    destruct (sendMessageToGemini _ _ _) as [result chat]. simpl.
    eexists; eexists. split; [reflexivity |]. now repeat split.
Qed.

(** X5. One turn at a time: once a turn is submitted, whatever is typed, a
    further submission does nothing until the turn settles; the settling
    lifts the block. *)
Theorem one_turn_in_flight `{ChatService} (uuid1 uuid2 : string) (now : Z)
    (st st' : AppState) (p : Pending) :
  submitTurn uuid1 uuid2 now st = (st', Some p) ->
  (forall input uuid3 uuid4 now',
     submitTurn uuid3 uuid4 now' (setInputText input st')
     = (setInputText input st', None))
  /\ isLoading (settleTurn p st') = false.
Proof.
  intros Hsub.
  assert (Hload : isLoading st' = true).
  { revert Hsub. unfold submitTurn.
    destruct ((Js.trim (inputText st) =? "")%string || isLoading st
              || negb (Js.truthy (currentSessionId st))); [discriminate |].
    destruct (sendMessageToGemini _ _ _) as [result chat].
    now intros [= <- _]. }
  split.
  - intros input uuid3 uuid4 now'. unfold submitTurn. simpl.
    rewrite Hload. now rewrite orb_true_r.
  - unfold settleTurn. now destruct (outcome p).
Qed.

Lemma one_turn_in_flight_witness :
  let st' := fst (@submitTurn silent "m1" "m2" 2000 typedStore) in
  let p := {| turn_session := Some "s1"; thinkingMsgId := "m2";
              outcome := Fulfilled {| reply_text := DEFAULT_TEXT;
                                      reply_places := [] |} |} in
  @submitTurn silent "m1" "m2" 2000 typedStore = (st', Some p)
  /\ @submitTurn silent "m3" "m4" 3000 (setInputText "hotels" st')
     = (setInputText "hotels" st', None).
Proof.
  intros st' p. split; [reflexivity |].
  exact (proj1 (@one_turn_in_flight silent "m1" "m2" 2000 typedStore st' p
                  eq_refl) "hotels" "m3" "m4" 3000).
Defined.

(** ** The messages of a session *)

Lemma resolved_not_thinking (tid : string) (p : Pending) (m0 m : Message) :
  m = match outcome p with
      | Fulfilled response => resolveMsg tid response m0
      | Rejected _ => failMsg tid m0
      end ->
  isThinking m = Some true ->
  m = m0 /\ msg_id m0 <> tid.
Proof.
  intros -> Hth. destruct (outcome p) as [response | e]; [unfold resolveMsg in * | unfold failMsg in *];
    destruct (msg_id m0 =? tid)%string eqn:E; simpl in Hth; try discriminate;
    apply String.eqb_neq in E; now split.
Qed.

Lemma settleTurn_sessions (p : Pending) (st : AppState) :
  sessions (settleTurn p st)
  = onCurrent (turn_session p)
      (withMessages (fun m => match outcome p with
                              | Fulfilled response =>
                                  resolveMsg (thinkingMsgId p) response m
                              | Rejected _ => failMsg (thinkingMsgId p) m
                              end))
      (sessions st).
Proof. unfold settleTurn. now destruct (outcome p). Qed.

Lemma submitTurn_accepted `{ChatService} (uuid1 uuid2 : string) (now : Z)
    (st st' : AppState) (p : Pending) :
  submitTurn uuid1 uuid2 now st = (st', Some p) ->
  turn_session p = currentSessionId st /\ thinkingMsgId p = uuid2
  /\ outcome p = fst (sendMessageToGemini (Js.trim (inputText st)) (location st)
                                          (chatSession st)).
Proof.
  unfold submitTurn.
  destruct ((Js.trim (inputText st) =? "")%string || isLoading st
            || negb (Js.truthy (currentSessionId st))); [discriminate |].
  simpl. destruct (sendMessageToGemini _ _ _) as [result chat].
  intros [= _ <-]. now repeat split.
Qed.

(** X6. A whole turn leaves no placeholder of its own: every message that
    is still thinking after [handleSendMessage] was in that session, and
    thinking, before. *)
Theorem handleSendMessage_no_new_placeholder `{ChatService}
    (uuid1 uuid2 : string) (now : Z) (st : AppState)
    (s' : ChatSession) (m : Message) :
  In s' (sessions (handleSendMessage uuid1 uuid2 now st)) ->
  In m (messages s') -> isThinking m = Some true ->
  exists s, In s (sessions st) /\ id s = id s' /\ In m (messages s).
Proof.
  unfold handleSendMessage.
  destruct (submitTurn uuid1 uuid2 now st) as [st1 [p |]] eqn:Hsub.
  - destruct (submitTurn_accepted _ _ _ _ _ _ Hsub) as [Hcur [Htid _]].
    rewrite settleTurn_sessions, (submitTurn_sessions _ _ _ _ _ _ Hsub).
    rewrite Hcur, Htid. unfold onCurrent. rewrite map_map.
    intros Hs' Hm Hth. apply in_map_iff in Hs'. destruct Hs' as [s [<- Hs]].
    exists s. split; [assumption |].
    destruct (isCurrent (id s) (currentSessionId st)) eqn:Ec; simpl in *.
    + rewrite Ec in *. simpl in *. split; [reflexivity |].
      apply in_map_iff in Hm. destruct Hm as [m0 [Hm0 Hin0]].
      symmetry in Hm0.
      destruct (resolved_not_thinking _ _ _ _ Hm0 Hth) as [-> Hne].
      apply in_app_or in Hin0. destruct Hin0 as [Hin0 | [<- | [<- | []]]];
        [assumption | discriminate | now elim Hne].
    + rewrite Ec in *. now split.
  - revert Hsub. unfold submitTurn.
    destruct ((Js.trim (inputText st) =? "")%string || isLoading st
              || negb (Js.truthy (currentSessionId st)));
      [| destruct (sendMessageToGemini _ _ _); discriminate].
    intros [= <-] Hs' Hm _. now exists s'.
Qed.

Lemma handleSendMessage_no_new_placeholder_witness :
  let stale := thinkingMsg "m0" in
  let s := {| id := "s1"; session_title := "Hotels";
              messages := [welcomeMsg; stale]; createdAt := 1; lastUpdated := 1 |} in
  let st := setInputText "condos"
              (setCurrentSessionId (Some "s1")
                 (setSessions (fun _ => [s]) (initialState false))) in
  let s' := {| id := "s1"; session_title := "Hotels";
               messages := [welcomeMsg; stale; userMsg "m1" "condos";
                            {| msg_id := "m2"; role := model_role;
                               text := APOLOGY; places := Some [];
                               isThinking := Some false |}];
               createdAt := 1; lastUpdated := 2000 |} in
  In s' (sessions (@handleSendMessage offline "m1" "m2" 2000 st))
  /\ In stale (messages s') /\ isThinking stale = Some true
  /\ exists s0, In s0 (sessions st) /\ id s0 = id s' /\ In stale (messages s0).
Proof.
  intros stale s st s'.
  assert (H1 : In s' (sessions (@handleSendMessage offline "m1" "m2" 2000 st)))
    by (now left).
  assert (H2 : In stale (messages s')) by (right; now left).
  split; [exact H1 |]. split; [exact H2 |]. split; [reflexivity |].
  exact (@handleSendMessage_no_new_placeholder offline "m1" "m2" 2000 st s' stale
           H1 H2 eq_refl).
Defined.

Lemma map_resolve_fresh (tid : string) (f : Message -> Message)
    (l : list Message) :
  (forall m, msg_id m <> tid -> f m = m) ->
  (forall m, In m l -> msg_id m <> tid) ->
  map f l = l.
Proof.
  intros Hf Hfresh. induction l as [| m l IH]; [reflexivity |]. simpl.
  rewrite Hf by (apply Hfresh; now left).
  rewrite IH; [reflexivity |]. intros m' Hin. apply Hfresh. now right.
Qed.

(** X7. A whole turn, with identifiers that are new to the store: the
    active session gains the user's message (the trimmed input) and the
    model's message, which carries the text and the places of the
    service's reply and is no longer thinking; the messages it had, and
    the other sessions' messages, are as they were. *)
Theorem handleSendMessage_appends_reply `{ChatService}
    (uuid1 uuid2 : string) (now : Z) (st st1 : AppState) (p : Pending) :
  submitTurn uuid1 uuid2 now st = (st1, Some p) ->
  uuid1 <> uuid2 ->
  (forall s m, In s (sessions st) -> In m (messages s) -> msg_id m <> uuid2) ->
  exists reply,
    outcome p = Fulfilled reply
    /\ map messages (sessions (handleSendMessage uuid1 uuid2 now st))
       = map (fun s =>
                if isCurrent (id s) (currentSessionId st)
                then (messages s
                      ++ [userMsg uuid1 (Js.trim (inputText st));
                          {| msg_id := uuid2; role := model_role;
                             text := reply_text reply;
                             places := Some (reply_places reply);
                             isThinking := Some false |}])%list
                else messages s)
             (sessions st).
Proof.
  intros Hsub Hne Hfresh.
  destruct (submitTurn_accepted _ _ _ _ _ _ Hsub) as [Hcur [Htid Hout]].
  destruct (sendMessageToGemini_fulfilled (Js.trim (inputText st)) (location st)
              (chatSession st)) as [reply [chat Hsend]].
  rewrite Hsend in Hout. simpl in Hout. exists reply. split; [assumption |].
  unfold handleSendMessage. rewrite Hsub.
  rewrite settleTurn_sessions, (submitTurn_sessions _ _ _ _ _ _ Hsub).
  rewrite Hcur, Htid, Hout. unfold onCurrent. rewrite !map_map.
  apply map_ext_in. intros s Hs.
  destruct (isCurrent (id s) (currentSessionId st)) eqn:Ec; simpl; rewrite Ec;
    [| reflexivity].
  simpl. rewrite map_app. simpl.
  rewrite (map_resolve_fresh uuid2).
  - unfold resolveMsg. simpl. rewrite String.eqb_refl.
    apply String.eqb_neq in Hne. now rewrite Hne.
  - intros m Hm. unfold resolveMsg. apply String.eqb_neq in Hm. now rewrite Hm.
  - intros m Hm. now apply (Hfresh s).
Qed.

Lemma handleSendMessage_appends_reply_witness :
  let st1 := fst (@submitTurn offline "m1" "m2" 2000 typedStore) in
  let p := {| turn_session := Some "s1"; thinkingMsgId := "m2";
              outcome := Fulfilled {| reply_text := APOLOGY; reply_places := [] |} |} in
  @submitTurn offline "m1" "m2" 2000 typedStore = (st1, Some p)
  /\ "m1" <> "m2"
  /\ (forall s m, In s (sessions typedStore) -> In m (messages s) ->
                  msg_id m <> "m2")
  /\ exists reply,
       outcome p = Fulfilled reply
       /\ map messages (sessions (@handleSendMessage offline "m1" "m2" 2000 typedStore))
          = map (fun s =>
                   if isCurrent (id s) (currentSessionId typedStore)
                   then (messages s
                         ++ [userMsg "m1" (Js.trim (inputText typedStore));
                             {| msg_id := "m2"; role := model_role;
                                text := reply_text reply;
                                places := Some (reply_places reply);
                                isThinking := Some false |}])%list
                   else messages s)
                (sessions typedStore).
Proof.
  intros st1 p.
  assert (Hne : "m1" <> "m2") by discriminate.
  assert (Hfresh : forall s m, In s (sessions typedStore) -> In m (messages s) ->
                               msg_id m <> "m2").
  { intros s m [<- | []] [<- | []]. discriminate. }
  split; [reflexivity |]. split; [exact Hne |]. split; [exact Hfresh |].
  exact (@handleSendMessage_appends_reply offline "m1" "m2" 2000 typedStore st1 p
           eq_refl Hne Hfresh).
Defined.

Lemma Forall2_map_self {A : Type} (R : A -> A -> Prop) (f : A -> A) (l : list A) :
  (forall x, In x l -> R x (f x)) -> Forall2 R l (map f l).
Proof.
  induction l as [| x l IH]; intros HR; simpl; constructor.
  - apply HR. now left.
  - apply IH. intros y Hy. apply HR. now right.
Qed.

Lemma settled_message (p : Pending) (m : Message) :
  let m' := match outcome p with
            | Fulfilled response => resolveMsg (thinkingMsgId p) response m
            | Rejected _ => failMsg (thinkingMsgId p) m
            end in
  msg_id m' = msg_id m /\ role m' = role m
  /\ (msg_id m <> thinkingMsgId p -> m' = m).
Proof.
  intros m'. unfold m'.
  destruct (outcome p); [unfold resolveMsg | unfold failMsg];
    destruct (msg_id m =? thinkingMsgId p)%string eqn:E; simpl;
    repeat split; try reflexivity; intros Hne;
    try reflexivity; apply String.eqb_eq in E; contradiction.
Qed.

(** X8. The settling of a turn is in place: the sessions stay the same in
    number and order, each with its id, title and time stamps, and each
    message with its id and role; only messages that have the
    placeholder's id, in sessions that have the id the turn was sent from,
    can differ. The active session and the context are not touched, so a
    reply that arrives after a switch goes to the session it belongs to,
    and one whose session is gone changes nothing. *)
Theorem settleTurn_in_place (p : Pending) (st : AppState) :
  currentSessionId (settleTurn p st) = currentSessionId st
  /\ chatSession (settleTurn p st) = chatSession st
  /\ Forall2
       (fun s s' =>
          id s' = id s /\ session_title s' = session_title s
          /\ createdAt s' = createdAt s /\ lastUpdated s' = lastUpdated s
          /\ Forall2
               (fun m m' =>
                  msg_id m' = msg_id m /\ role m' = role m
                  /\ (isCurrent (id s) (turn_session p) = false
                      \/ msg_id m <> thinkingMsgId p -> m' = m))
               (messages s) (messages s'))
       (sessions st) (sessions (settleTurn p st))
  /\ ((forall s, In s (sessions st) -> isCurrent (id s) (turn_session p) = false) ->
      sessions (settleTurn p st) = sessions st).
Proof.
  split; [unfold settleTurn; now destruct (outcome p) |].
  split; [unfold settleTurn; now destruct (outcome p) |].
  rewrite settleTurn_sessions. unfold onCurrent. split.
  - apply Forall2_map_self. intros s _.
    destruct (isCurrent (id s) (turn_session p)) eqn:Ec.
    + simpl. repeat split. apply Forall2_map_self. intros m _.
      destruct (settled_message p m) as [Hid [Hrole Hsame]].
      repeat split; try assumption.
      intros [Hc | Hne]; [discriminate | now apply Hsame].
    + repeat split. rewrite <- (map_id (messages s)) at 2.
      apply Forall2_map_self. intros m _. now repeat split.
  - intros Hgone. rewrite <- (map_id (sessions st)) at 2.
    apply map_ext_in. intros s Hs. now rewrite (Hgone s Hs).
Qed.

(** ** Deleting and creating sessions *)

Lemma setSessions_same (st : AppState) :
  setSessions (fun _ => sessions st) st = st.
Proof. now destruct st. Qed.

Lemma filter_all {A : Type} (f : A -> bool) (l : list A) :
  (forall x, In x l -> f x = true) -> filter f l = l.
Proof.
  induction l as [| x l IH]; intros Hall; simpl; [reflexivity |].
  rewrite (Hall x) by (now left). f_equal. apply IH.
  intros y Hy. apply Hall. now right.
Qed.

(** X9. Deleting removes every session that has the id and no other; the
    sessions that remain keep their order, and only when none remains is
    the list the one default session (whose id is new). *)
Theorem deleteSession_removes_the_id (sid newId : string) (t0 t1 : Z)
    (st : AppState) :
  newId <> sid ->
  let remaining := filter (fun s => negb (id s =? sid)%string) (sessions st) in
  let after := sessions (deleteSession sid newId t0 t1 st) in
  (forall s, In s after -> id s <> sid)
  /\ (forall s, In s (sessions st) -> id s <> sid -> In s after)
  /\ (after = remaining \/ (remaining = [] /\ after = [newSession newId t0 t1])).
Proof.
  intros Hnew remaining after.
  assert (Hrem : forall s, In s remaining <-> In s (sessions st) /\ id s <> sid).
  { intros s. unfold remaining. rewrite filter_In, negb_true_iff.
    now rewrite String.eqb_neq. }
  assert (Hafter : after = remaining
                   \/ (remaining = [] /\ after = [newSession newId t0 t1])).
  { unfold after. rewrite deleteSession_sessions. cbv zeta. fold remaining.
    destruct (isCurrent sid (currentSessionId st)); [| now left].
    destruct remaining; [right; now split | now left]. }
  split; [| split; [| exact Hafter]].
  - intros s Hs. destruct Hafter as [-> | [_ ->]].
    + now apply Hrem.
    + destruct Hs as [<- | []]. exact Hnew.
  - intros s Hs Hne. destruct Hafter as [-> | [Hnil _]].
    + now apply Hrem.
    + assert (Hin : In s remaining) by (now apply Hrem).
      rewrite Hnil in Hin. destruct Hin.
Qed.

Lemma deleteSession_removes_the_id_witness :
  "s2" <> "s1"
  /\ forall s, In s (sessions (deleteSession "s1" "s2" 2000 2000 typedStore)) ->
                id s <> "s1".
Proof.
  assert (Hne : "s2" <> "s1") by discriminate.
  split; [exact Hne |].
  exact (proj1 (deleteSession_removes_the_id "s1" "s2" 2000 2000
                  typedStore Hne)).
Defined.

(** X10. Deleting an id that no session of the store has changes nothing. *)
Theorem deleteSession_unknown_id (sid newId : string) (t0 t1 : Z) (st : AppState) :
  activeInStore st ->
  (forall s, In s (sessions st) -> id s <> sid) ->
  deleteSession sid newId t0 t1 st = st.
Proof.
  intros Hact Hunknown. unfold deleteSession.
  assert (Hfilter : filter (fun s => negb (id s =? sid)%string) (sessions st)
                    = sessions st).
  { apply filter_all. intros s Hs. apply negb_true_iff, String.eqb_neq.
    now apply Hunknown. }
  assert (Hcur : isCurrent sid (currentSessionId st) = false).
  { unfold activeInStore in Hact.
    destruct (currentSessionId st) as [c |]; [| reflexivity].
    destruct Hact as [s [Hs <-]]. simpl. apply String.eqb_neq.
    intros Heq. now apply (Hunknown s Hs). }
  rewrite Hcur, Hfilter. apply setSessions_same.
Qed.

Lemma deleteSession_unknown_id_witness :
  activeInStore typedStore
  /\ (forall s, In s (sessions typedStore) -> id s <> "s9")
  /\ deleteSession "s9" "s2" 2000 2000 typedStore = typedStore.
Proof.
  assert (Hact : activeInStore typedStore).
  { exists (newSession "s1" 1000 1000). split; [now left | reflexivity]. }
  assert (Hun : forall s, In s (sessions typedStore) -> id s <> "s9").
  { intros s [<- | []]. discriminate. }
  split; [exact Hact |]. split; [exact Hun |].
  exact (deleteSession_unknown_id "s9" "s2" 2000 2000 typedStore Hact Hun).
Defined.

(** X11. A session that is created and deleted again, with others in the
    store: the list is what it was, the session that was first becomes the
    active one and the context is resumed from its messages. *)
Theorem create_then_delete (newId spareId : string) (t0 t1 t2 t3 : Z)
    (st : AppState) (first : ChatSession) (rest : list ChatSession) :
  sessions st = first :: rest ->
  (forall s, In s (sessions st) -> id s <> newId) ->
  let st' := deleteSession newId spareId t2 t3 (createNewSession newId t0 t1 st) in
  sessions st' = sessions st
  /\ currentSessionId st' = Some (id first)
  /\ chatSession st' = resumeChat (messages first) (chatSession st).
Proof.
  intros Hs Hfresh st'. unfold st', deleteSession.
  rewrite createNewSession_current, createNewSession_sessions. simpl.
  rewrite !String.eqb_refl. simpl.
  assert (Hfilter : filter (fun s => negb (id s =? newId)%string) (sessions st)
                    = sessions st).
  { apply filter_all. intros s Hin. apply negb_true_iff, String.eqb_neq.
    now apply Hfresh. }
  rewrite Hfilter, Hs. simpl. repeat split.
Qed.

Lemma create_then_delete_witness :
  sessions signedIn = [newer; older]
  /\ (forall s, In s (sessions signedIn) -> id s <> "c")
  /\ sessions (deleteSession "c" "d" 3 3 (createNewSession "c" 2 2 signedIn))
     = sessions signedIn.
Proof.
  assert (Hfresh : forall s, In s (sessions signedIn) -> id s <> "c").
  { intros s [<- | [<- | []]]; discriminate. }
  split; [reflexivity |]. split; [exact Hfresh |].
  exact (proj1 (create_then_delete "c" "d" 2 2 3 3 signedIn newer [older]
                  eq_refl Hfresh)).
Defined.

(** X12. No operation changes the id or the creation time of a session:
    after any operation, each session of the store was created or loaded
    by it, or has the id and [createdAt] of a session that was there. *)
Theorem createdAt_never_changes `{ChatService} `{JsonParser} (op : Op)
    (st : AppState) :
  keeps createdAt op st (step op st).
Proof.
  destruct op as [who | jsonString newId t0 t1 | newId t0 t1 | sid newId t0 t1
                 | sid | | input | uuid1 uuid2 now | p];
    try (apply step_keeps; [reflexivity | discriminate]).
  intros s'. simpl. unfold submitTurn.
  destruct ((Js.trim (inputText st) =? "")%string || isLoading st
            || negb (Js.truthy (currentSessionId st))); simpl.
  - intros Hin. left. apply in_map_iff. now exists s'.
  - destruct (sendMessageToGemini _ _ _) as [result chat]. simpl.
    unfold onCurrent. intros Hin. apply in_map_iff in Hin.
    destruct Hin as [s [<- Hs]]. left. apply in_map_iff. exists s.
    split; [| assumption]. now destruct (isCurrent (id s) (currentSessionId st)).
Qed.

(** X13. The messages of a session are never removed, reordered or given
    another id or role: whatever turns are submitted and settled, the ids
    and roles of the messages it had remain, in order, at the front of
    its list. *)
Theorem messages_append_only (evs : list TurnEvent) (s : ChatSession) :
  exists added,
    map (fun m => (msg_id m, role m)) (messages (fold_left applyEvent evs s))
    = (map (fun m => (msg_id m, role m)) (messages s) ++ added)%list.
Proof.
  revert s; induction evs as [| e evs IH]; intros s; simpl.
  - exists []. now rewrite app_nil_r.
  - destruct (IH (applyEvent s e)) as [added Hadded]. rewrite Hadded.
    destruct e as [userText now uuid1 uuid2 | tid [response | err]]; simpl.
    + rewrite map_app, <- app_assoc. eexists. reflexivity.
    + exists added. f_equal. rewrite map_map. apply map_ext. intros m.
      unfold resolveMsg. now destruct (msg_id m =? tid)%string.
    + exists added. f_equal. rewrite map_map. apply map_ext. intros m.
      unfold failMsg. now destruct (msg_id m =? tid)%string.
Qed.

(** ** The length of a title *)

Lemma length_append (s1 s2 : string) :
  String.length (s1 ++ s2) = (String.length s1 + String.length s2)%nat.
Proof. induction s1 as [| c s1 IH]; simpl; [reflexivity | now rewrite IH]. Qed.

Lemma length_substring_0 (n : nat) (s : string) :
  String.length (substring 0 n s) = Nat.min n (String.length s).
Proof.
  revert n; induction s as [| c s IH]; intros [| n]; simpl; try reflexivity.
  now rewrite IH.
Qed.

Lemma turnTitle_length (userText : string) :
  (String.length (turnTitle userText) <= 33)%nat.
Proof.
  unfold turnTitle.
  destruct (30 <? Z.of_nat (String.length userText)) eqn:E.
  - rewrite length_append, length_substring_0.
    change (String.length "...") with 3%nat.
    pose proof (Nat.le_min_l 30 (String.length userText)). lia.
  - apply Z.ltb_ge in E. lia.
Qed.

(** X14. A title never grows beyond 33 characters: a session whose title
    is that short (the default one is) keeps a title that short through
    every turn. *)
Theorem title_length_bounded (evs : list TurnEvent) (s : ChatSession) :
  (String.length (session_title s) <= 33)%nat ->
  (String.length (session_title (fold_left applyEvent evs s)) <= 33)%nat.
Proof.
  revert s; induction evs as [| e evs IH]; intros s Hs; simpl; [exact Hs |].
  apply IH.
  destruct e as [userText now uuid1 uuid2 | tid [response | err]]; simpl;
    try exact Hs.
  destruct (Z.of_nat (List.length (messages s)) <=? 1);
    [apply turnTitle_length | exact Hs].
Qed.

Lemma title_length_bounded_witness :
  (String.length (session_title (newSession "s1" 1 1)) <= 33)%nat
  /\ (String.length
        (session_title
           (fold_left applyEvent
              [Submitted "Show me some 1-bedroom apartments in Sukhumvit near the station" 2 "m1" "m2"]
              (newSession "s1" 1 1))) <= 33)%nat.
Proof.
  assert (H0 : (String.length (session_title (newSession "s1" 1 1)) <= 33)%nat)
    by (simpl; lia).
  split; [exact H0 |].
  exact (title_length_bounded
           [Submitted "Show me some 1-bedroom apartments in Sukhumvit near the station" 2 "m1" "m2"]
           (newSession "s1" 1 1) H0).
Defined.

(** ** More on the grounding normaliser *)

Lemma firstOccurrences_distinct (l : list PlaceData) (seen : list string) :
  NoDup (map title l) ->
  (forall p, In p l -> ~ In (title p) seen) ->
  firstOccurrences seen l = l.
Proof.
  revert seen; induction l as [| v r IH]; intros seen Hnd Hseen; simpl.
  - reflexivity.
  - simpl in Hnd. apply NoDup_cons_iff in Hnd. destruct Hnd as [Hv Hnd].
    destruct (existsb (fun t => (t =? title v)%string) seen) eqn:E.
    + apply seen_In in E. elim (Hseen v); [now left | exact E].
    + f_equal. apply IH; [assumption |].
      intros p Hp [Ht | Hs].
      * apply Hv. rewrite Ht. now apply in_map.
      * apply (Hseen p); [now right | exact Hs].
Qed.

(** X15. Records whose titles are pairwise different pass the
    deduplication unchanged. *)
Theorem uniquePlaces_distinct_titles (places : list PlaceData) :
  NoDup (map title places) -> uniquePlaces places = places.
Proof.
  intros Hnd. rewrite uniquePlaces_firstOccurrences.
  apply firstOccurrences_distinct; [assumption | intros p _ []].
Qed.

Lemma uniquePlaces_distinct_titles_witness :
  NoDup (map title [place "A" "u1"; place "B" "u3"])
  /\ uniquePlaces [place "A" "u1"; place "B" "u3"]
     = [place "A" "u1"; place "B" "u3"].
Proof.
  assert (Hnd : NoDup (map title [place "A" "u1"; place "B" "u3"])).
  { simpl. constructor.
    - intros [H | []]. discriminate.
    - constructor; [intros [] | constructor]. }
  split; [exact Hnd |].
  exact (uniquePlaces_distinct_titles _ Hnd).
Defined.

(** X16. Deduplicating twice is deduplicating once. *)
Theorem uniquePlaces_idempotent (places : list PlaceData) :
  uniquePlaces (uniquePlaces places) = uniquePlaces places.
Proof.
  rewrite (uniquePlaces_firstOccurrences places).
  rewrite uniquePlaces_firstOccurrences.
  apply firstOccurrences_distinct; [apply firstOccurrences_NoDup | intros p _ []].
Qed.

Lemma Subseq_length {A : Type} (l1 l2 : list A) :
  Subseq l1 l2 -> (List.length l1 <= List.length l2)%nat.
Proof. induction 1; simpl; lia. Qed.

Lemma recordsOf_length (chunks : list GroundingChunk) :
  (List.length (recordsOf chunks) <= List.length chunks)%nat.
Proof.
  induction chunks as [| c cs IH]; simpl; [lia |].
  rewrite length_app. destruct (placeOfChunk c); simpl; lia.
Qed.

(** X17. Every record the normaliser returns comes from a chunk of the
    input that has a maps payload, with that payload's title, which is not
    empty, and a URI that is not empty: the payload's [uri] when that is
    not empty, its [googleMapsUri] otherwise. There are no more records
    than chunks. *)
Theorem groundingNormalizer_records_from_chunks
    (chunks : list GroundingChunk) :
  (forall p, In p (groundingNormalizer (Some chunks)) ->
     exists c m,
       In c chunks /\ maps c = Some m
       /\ maps_title m = Some (title p) /\ title p <> ""
       /\ uri p <> ""
       /\ Some (uri p) = (if Js.truthy (maps_uri m) then maps_uri m
                          else googleMapsUri m))
  /\ (List.length (groundingNormalizer (Some chunks)) <= List.length chunks)%nat.
Proof.
  unfold groundingNormalizer.
  rewrite uniquePlaces_firstOccurrences, extractPlaces_recordsOf.
  pose proof (firstOccurrences_Subseq (recordsOf chunks) []) as Hsub.
  split.
  - intros p Hp. apply (Subseq_In _ _ _ Hsub) in Hp.
    unfold recordsOf in Hp. apply in_flat_map in Hp.
    destruct Hp as [c [Hc Hp]].
    destruct (placeOfChunk c) as [q |] eqn:Eq; [| destruct Hp].
    destruct Hp as [<- | []].
    destruct (placeOfChunk_accepted c q Eq) as [m Hm].
    exists c, m. split; [assumption | exact Hm].
  - apply Subseq_length in Hsub. pose proof (recordsOf_length chunks). lia.
Qed.

(** ** More on the conversation context *)

Lemma validHistory_app (l1 l2 : list Message) :
  validHistory (l1 ++ l2) = (validHistory l1 ++ validHistory l2)%list.
Proof. unfold validHistory. now rewrite filter_app, map_app. Qed.

(** X18. What a turn adds to the history a context is resumed from (its
    identifiers are not "welcome"): while the turn is in flight, the
    user's text alone, the placeholder being left out; once it is
    settled, the user's text and then the model's reply. *)
Theorem turn_enters_history (msgs : list Message) (uuid1 uuid2 userText : string)
    (reply : Reply) :
  uuid1 <> "welcome" -> uuid2 <> "welcome" ->
  validHistory (msgs ++ [userMsg uuid1 userText; thinkingMsg uuid2])
  = (validHistory msgs
     ++ [ {| content_role := user_role;
             parts := [ {| part_text := userText |} ] |} ])%list
  /\ validHistory (msgs ++ [userMsg uuid1 userText;
                            resolveMsg uuid2 reply (thinkingMsg uuid2)])
     = (validHistory msgs
        ++ [ {| content_role := user_role;
                parts := [ {| part_text := userText |} ] |};
             {| content_role := model_role;
                parts := [ {| part_text := reply_text reply |} ] |} ])%list.
Proof.
  intros H1 H2. apply String.eqb_neq in H1, H2.
  rewrite !validHistory_app. unfold validHistory, keptInHistory, resolveMsg.
  simpl. rewrite String.eqb_refl. simpl. rewrite H1, H2. simpl. now split.
Qed.

Lemma turn_enters_history_witness :
  "m1" <> "welcome" /\ "m2" <> "welcome"
  /\ validHistory ([welcomeMsg] ++ [userMsg "m1" "hotels"; thinkingMsg "m2"])
     = [ {| content_role := user_role; parts := [ {| part_text := "hotels" |} ] |} ].
Proof.
  assert (H1 : "m1" <> "welcome") by discriminate.
  assert (H2 : "m2" <> "welcome") by discriminate.
  split; [exact H1 |]. split; [exact H2 |].
  exact (proj1 (turn_enters_history [welcomeMsg] "m1" "m2" "hotels"
                  {| reply_text := ""; reply_places := [] |} H1 H2)).
Defined.

(** X19. The context follows the active session: whenever an operation
    changes the active id, either it is the logout, which leaves none
    active, or the context is a new one seeded with the history of a
    session of the store that has the new active id (for a created
    session, the empty history). *)
Theorem context_follows_active_session `{ChatService} `{JsonParser}
    (op : Op) (st : AppState) :
  currentSessionId (step op st) <> currentSessionId st ->
  (op = OpLogout /\ currentSessionId (step op st) = None)
  \/ exists s,
       In s (sessions (step op st))
       /\ currentSessionId (step op st) = Some (id s)
       /\ chatSession (step op st)
          = Some (chats_create (chatParams (validHistory (messages s)))).
Proof.
  assert (Hcreate : forall newId t0 t1 st0,
            exists s,
              In s (sessions (createNewSession newId t0 t1 st0))
              /\ currentSessionId (createNewSession newId t0 t1 st0) = Some (id s)
              /\ chatSession (createNewSession newId t0 t1 st0)
                 = Some (chats_create (chatParams (validHistory (messages s))))).
  { intros newId t0 t1 st0. exists (newSession newId t0 t1).
    rewrite createNewSession_sessions, createNewSession_current,
      createNewSession_chat.
    split; [now left |]. split; reflexivity. }
  destruct op as [who | jsonString newId t0 t1 | newId t0 t1 | sid newId t0 t1
                 | sid | | input | uuid1 uuid2 now | p]; simpl; intros Hchg.
  - elim Hchg. apply identify_current.
  - right. revert Hchg.
    destruct (loggedOut st); [intros Hchg; now elim Hchg |]. intros _.
    unfold parseAndLoadSessions.
    destruct (Js.truthy jsonString); [| apply Hcreate].
    destruct (Js.chain jsonString JSON_parse) as [parsed |]; [| apply Hcreate].
    destruct (0 <? Z.of_nat (List.length parsed)) eqn:Hpos; [| apply Hcreate].
    cbv zeta. pose proof (sort_head_most_recent parsed) as Hhead.
    destruct (Js.sort byLastUpdatedDesc parsed) as [| m r].
    + subst parsed. discriminate.
    + exists m. split; [now left |]. split; reflexivity.
  - right. apply Hcreate.
  - right. revert Hchg. unfold deleteSession.
    destruct (isCurrent sid (currentSessionId st)); [| intros Hchg; now elim Hchg].
    intros _. destruct (filter _ (sessions st)) as [| first rest];
      [apply Hcreate |].
    exists first. split; [now left |]. split; reflexivity.
  - right. revert Hchg. unfold onSelectSession.
    destruct (find (fun x => (id x =? sid)%string) (sessions st)) as [s |] eqn:Ef.
    + intros _. apply find_some in Ef. destruct Ef as [Hs Heq].
      apply String.eqb_eq in Heq. exists s.
      destruct (isMobile st); simpl; rewrite Heq; now repeat split.
    + intros Hchg. elim Hchg. now destruct (isMobile st).
  - left. now split.
  - now elim Hchg.
  - elim Hchg. unfold submitTurn.
    destruct ((Js.trim (inputText st) =? "")%string || isLoading st
              || negb (Js.truthy (currentSessionId st))); [reflexivity |].
    now destruct (sendMessageToGemini _ _ _).
  - elim Hchg. unfold settleTurn. now destruct (outcome p).
Qed.

Lemma context_follows_active_session_witness :
  currentSessionId (@step offline noParse (OpSelect "a") signedIn)
  <> currentSessionId signedIn
  /\ ((OpSelect "a" = OpLogout
       /\ currentSessionId (@step offline noParse (OpSelect "a") signedIn) = None)
      \/ exists s,
           In s (sessions (@step offline noParse (OpSelect "a") signedIn))
           /\ currentSessionId (@step offline noParse (OpSelect "a") signedIn)
              = Some (id s)
           /\ chatSession (@step offline noParse (OpSelect "a") signedIn)
              = Some (chats_create (chatParams (validHistory (messages s))))).
Proof.
  assert (Hchg : currentSessionId (@step offline noParse (OpSelect "a") signedIn)
                 <> currentSessionId signedIn) by discriminate.
  split; [exact Hchg |].
  exact (@context_follows_active_session offline noParse (OpSelect "a")
           signedIn Hchg).
Defined.

(** ** Distinct ids *)

Lemma NoDup_map_filter {A B : Type} (f : A -> B) (g : A -> bool) (l : list A) :
  NoDup (map f l) -> NoDup (map f (filter g l)).
Proof.
  induction l as [| x l IH]; simpl; intros Hnd; [constructor |].
  apply NoDup_cons_iff in Hnd. destruct Hnd as [Hx Hnd].
  destruct (g x); simpl; [| now apply IH].
  constructor; [| now apply IH].
  intros Hin. apply Hx. apply in_map_iff in Hin.
  destruct Hin as [y [Hy Hin]]. apply filter_In in Hin.
  apply in_map_iff. exists y. tauto.
Qed.

(** X20. No two sessions share an id, as long as the ids that are drawn
    are new and the stored lists have distinct ids: every operation keeps
    the ids of the store pairwise different. *)
Theorem ids_stay_distinct `{ChatService} `{JsonParser} (op : Op) (st : AppState) :
  NoDup (map id (sessions st)) ->
  match op with
  | OpLoad jsonString newId _ _ =>
      ~ In newId (map id (sessions st))
      /\ forall parsed, Js.chain jsonString JSON_parse = Some parsed ->
                        NoDup (map id parsed)
  | OpCreate newId _ _ => ~ In newId (map id (sessions st))
  | _ => True
  end ->
  NoDup (map id (sessions (step op st))).
Proof.
  intros Hnd Hfresh.
  assert (Hcreate : forall newId t0 t1 st0,
            ~ In newId (map id (sessions st0)) -> NoDup (map id (sessions st0)) ->
            NoDup (map id (sessions (createNewSession newId t0 t1 st0)))).
  { intros newId t0 t1 st0 Hnew Hnd0. rewrite createNewSession_sessions.
    simpl. now constructor. }
  destruct op as [who | jsonString newId t0 t1 | newId t0 t1 | sid newId t0 t1
                 | sid | | input | uuid1 uuid2 now | p]; cbn [step].
  - now rewrite identify_sessions.
  - destruct Hfresh as [Hnew Hparsed].
    destruct (loggedOut st); [exact Hnd |]. unfold parseAndLoadSessions.
    destruct (Js.truthy jsonString); [| now apply Hcreate].
    destruct (Js.chain jsonString JSON_parse) as [parsed |];
      [| now apply Hcreate].
    specialize (Hparsed parsed eq_refl).
    destruct (0 <? Z.of_nat (List.length parsed)) eqn:Hpos.
    + cbv zeta.
      assert (Hs : NoDup (map id (Js.sort byLastUpdatedDesc parsed))).
      { eapply Permutation_NoDup; [| exact Hparsed].
        apply Permutation_map, sort_Permutation. }
      now destruct (Js.sort byLastUpdatedDesc parsed).
    + destruct parsed; [| discriminate]. apply Hcreate; [intros [] | constructor].
  - now apply Hcreate.
  - rewrite deleteSession_sessions. cbv zeta.
    pose proof (NoDup_map_filter id (fun s => negb (id s =? sid)%string)
                  (sessions st) Hnd) as Hf.
    destruct (isCurrent sid (currentSessionId st)); [| exact Hf].
    destruct (filter _ (sessions st)); [| exact Hf].
    simpl. constructor; [intros [] | constructor].
  - unfold onSelectSession.
    destruct (find _ (sessions st)); now destruct (isMobile st).
  - constructor.
  - exact Hnd.
  - unfold submitTurn.
    destruct ((Js.trim (inputText st) =? "")%string || isLoading st
              || negb (Js.truthy (currentSessionId st))); [exact Hnd |].
    destruct (sendMessageToGemini _ _ _). simpl.
    now rewrite onCurrent_ids.
  - rewrite settleTurn_sessions. now rewrite onCurrent_ids.
Qed.

Lemma ids_stay_distinct_witness :
  NoDup (map id (sessions signedIn))
  /\ ~ In "c" (map id (sessions signedIn))
  /\ NoDup (map id (sessions (@step offline noParse (OpCreate "c" 2 2) signedIn))).
Proof.
  assert (Hnd : NoDup (map id (sessions signedIn))).
  { simpl. constructor; [intros [H | []]; discriminate |].
    constructor; [intros [] | constructor]. }
  assert (Hnew : ~ In "c" (map id (sessions signedIn))).
  { simpl. intros [H | [H | []]]; discriminate. }
  split; [exact Hnd |]. split; [exact Hnew |].
  exact (@ids_stay_distinct offline noParse (OpCreate "c" 2 2) signedIn Hnd Hnew).
Defined.

(** ** Persistence *)

Lemma sessionsKey_injective (u u' : User) :
  sessionsKey u = sessionsKey u' -> user_id u = user_id u'.
Proof. unfold sessionsKey. simpl. now intros [= H]. Qed.

(** X21. Persisting writes at one place only: for a signed-in user, the
    key of that user's sessions in [localStorage]; for a guest, the guest
    key in [sessionStorage]; with no identity, nowhere. The saved user,
    the theme and the sessions of every other user are never
    overwritten. *)
Theorem persistEffect_isolation `{JsonWriter} (st : AppState) (b : Storages) :
  (forall k, getItem k (localStorage (persistEffect st b))
             <> getItem k (localStorage b) ->
             exists u, user st = Some u /\ k = sessionsKey u)
  /\ (forall k, getItem k (sessionStorage (persistEffect st b))
                <> getItem k (sessionStorage b) ->
                user st = None /\ isGuest st = true /\ k = GUEST_KEY)
  /\ getItem USER_KEY (localStorage (persistEffect st b))
     = getItem USER_KEY (localStorage b)
  /\ getItem THEME_KEY (localStorage (persistEffect st b))
     = getItem THEME_KEY (localStorage b)
  /\ (forall u', (forall u, user st = Some u -> user_id u <> user_id u') ->
                 getItem (sessionsKey u') (localStorage (persistEffect st b))
                 = getItem (sessionsKey u') (localStorage b)).
Proof.
  unfold persistEffect.
  assert (Hlen : (0 <=? Z.of_nat (List.length (sessions st))) = true)
    by (apply Z.leb_le; lia).
  rewrite Hlen. unfold getItem.
  destruct (user st) as [u |] eqn:Eu; [| destruct (isGuest st) eqn:Eg]; simpl.
  - split; [| split; [| split; [| split]]].
    + intros k Hk. exists u. split; [reflexivity |]. unfold setItem in Hk.
      destruct (k =? sessionsKey u)%string eqn:E; [now apply String.eqb_eq |].
      now elim Hk.
    + intros k Hk. now elim Hk.
    + reflexivity.
    + reflexivity.
    + intros u' Hother. unfold setItem.
      destruct (sessionsKey u' =? sessionsKey u)%string eqn:E; [| reflexivity].
      apply String.eqb_eq, sessionsKey_injective in E.
      elim (Hother u eq_refl). now symmetry.
  - split; [| split; [| split; [| split]]]; try reflexivity.
    + intros k Hk. now elim Hk.
    + intros k Hk. unfold setItem in Hk.
      destruct (k =? GUEST_KEY)%string eqn:E;
        [apply String.eqb_eq in E; now repeat split |].
      now elim Hk.
  - split; [| split; [| split; [| split]]]; try reflexivity.
    + intros k Hk. now elim Hk.
    + intros k Hk. now elim Hk.
Qed.

Lemma stored_blob `{JsonWriter} (st : AppState) (b : Storages) :
  loggedOut st = false ->
  match user st with
  | Some u => getItem (sessionsKey u)
                (localStorage (logoutStorage (persistEffect st b)))
  | None => getItem GUEST_KEY
              (sessionStorage (logoutStorage (persistEffect st b)))
  end = Some (JSON_stringify (sessions st)).
Proof.
  unfold loggedOut, persistEffect, logoutStorage, getItem.
  assert (Hlen : (0 <=? Z.of_nat (List.length (sessions st))) = true)
    by (apply Z.leb_le; lia).
  rewrite Hlen.
  destruct (user st) as [u |]; simpl.
  - intros _. unfold removeItem, setItem.
    assert (Hk : (sessionsKey u =? USER_KEY)%string = false) by reflexivity.
    now rewrite Hk, String.eqb_refl.
  - destruct (isGuest st); [| discriminate]. intros _. simpl.
    unfold setItem. now rewrite String.eqb_refl.
Qed.

(** X22. The sessions survive a logout: what is persisted for an identity
    is what the next load for that identity finds, also after
    [handleLogout] has cleared the saved user. Provided the blob
    [JSON.stringify] writes is read back by [JSON.parse] as the list, the
    load puts the sessions of the list in the store, the most recently
    updated first, and makes that one active. *)
Theorem persist_then_load `{JsonParser} `{JsonWriter} (newId : string) (t0 t1 : Z)
    (st st0 : AppState) (b : Storages) :
  loggedOut st = false ->
  sessions st <> [] ->
  JSON_stringify (sessions st) <> "" ->
  JSON_parse (JSON_stringify (sessions st)) = Some (sessions st) ->
  user st0 = user st -> isGuest st0 = isGuest st ->
  let st' := loadEffect newId t0 t1 (logoutStorage (persistEffect st b)) st0 in
  sessions st' = Js.sort byLastUpdatedDesc (sessions st)
  /\ Permutation (sessions st) (sessions st')
  /\ exists mostRecent rest,
       sessions st' = mostRecent :: rest
       /\ currentSessionId st' = Some (id mostRecent)
       /\ chatSession st' = resumeChat (messages mostRecent) (chatSession st0)
       /\ forall s, In s (sessions st) -> lastUpdated s <= lastUpdated mostRecent.
Proof.
  intros Hin Hne Hblob Hround Hu Hg st'.
  pose proof (stored_blob st b Hin) as Hstored.
  assert (Hload : st' = parseAndLoadSessions
                          (Some (JSON_stringify (sessions st))) newId t0 t1 st0).
  { unfold st', loadEffect. rewrite Hu, Hg. unfold loggedOut in Hin.
    destruct (user st) as [u |]; [now rewrite Hstored |].
    destruct (isGuest st); [now rewrite Hstored | discriminate]. }
  assert (Htruthy : Js.truthy (Some (JSON_stringify (sessions st))) = true).
  { simpl. apply negb_true_iff. now apply String.eqb_neq. }
  rewrite Hload.
  rewrite (load_sessions _ _ _ _ _ (sessions st) Htruthy Hround Hne). cbv zeta.
  pose proof (sort_head_most_recent (sessions st)) as Hhead.
  pose proof (sort_Permutation byLastUpdatedDesc (sessions st)) as Hperm.
  destruct (Js.sort byLastUpdatedDesc (sessions st)) as [| m r] eqn:Es.
  - congruence.
  - destruct Hhead as [_ Hmax]. simpl. split; [reflexivity |].
    split; [exact Hperm |]. exists m, r. now repeat split.
Qed.

Lemma persist_then_load_witness :
  let st := setSessions (fun _ => [older; newer]) signedIn in
  let st0 := identify (Some ada) (initialState false) in
  loggedOut st = false
  /\ sessions st <> []
  /\ @JSON_stringify writer (sessions st) <> ""
  /\ @JSON_parse stored (@JSON_stringify writer (sessions st)) = Some (sessions st)
  /\ user st0 = user st /\ isGuest st0 = isGuest st
  /\ sessions (@loadEffect stored "s" 0 0
                 (logoutStorage (@persistEffect writer st noStorage)) st0)
     = Js.sort byLastUpdatedDesc (sessions st).
Proof.
  intros st st0.
  assert (H1 : sessions st <> []) by discriminate.
  assert (H2 : @JSON_stringify writer (sessions st) <> "") by discriminate.
  split; [reflexivity |]. split; [exact H1 |]. split; [exact H2 |].
  split; [reflexivity |]. split; [reflexivity |]. split; [reflexivity |].
  exact (proj1 (@persist_then_load stored writer "s" 0 0 st st0 noStorage
                  eq_refl H1 H2 eq_refl eq_refl eq_refl)).
Defined.

(** ** Signing in *)

(** X23. A user who signs in is restored at the next mount, until they log
    out. A credential that [parseJwt] reads sets the user, leaves the
    sessions alone and saves the user; provided the saved blob is read back
    as the user, [restoreUser] signs that user in again; after the
    logout's [removeItem], it restores nobody. *)
Theorem sign_in_restored_until_logout `{JwtBuiltins} `{JsonWriter}
    (credential : string) (st st0 : AppState) (b : Storages)
    (payload : JwtPayload) :
  parseJwt credential = Some payload ->
  let u := {| user_id := sub payload;
              user_name := payload_name payload;
              user_email := payload_email payload;
              picture := payload_picture payload |} in
  JSON_stringify_user u <> "" ->
  JSON_parse_user (JSON_stringify_user u) = Some u ->
  let st1 := fst (handleCredentialResponse credential st b) in
  let b1 := snd (handleCredentialResponse credential st b) in
  user st1 = Some u /\ isGuest st1 = false /\ sessions st1 = sessions st
  /\ restoreUser b1 st0 = setIsGuest false (setUser (Some u) st0)
  /\ restoreUser (logoutStorage b1) st0 = st0.
Proof.
  intros Hjwt u Hblob Hround st1 b1.
  unfold st1, b1, handleCredentialResponse. rewrite Hjwt. simpl. fold u.
  split; [reflexivity |]. split; [reflexivity |]. split; [reflexivity |].
  unfold restoreUser, getItem. simpl. unfold setItem, removeItem. simpl.
  apply String.eqb_neq in Hblob. rewrite Hblob. simpl. rewrite Hround.
  now split.
Qed.

Lemma sign_in_restored_until_logout_witness :
  @parseJwt plain "h.p.s"
  = Some {| sub := "u1"; payload_name := "Ada";
            payload_email := "ada@example.org";
            payload_picture := "https://example.org/ada.png" |}
  /\ @JSON_stringify_user writer ada <> ""
  /\ @JSON_parse_user writer (@JSON_stringify_user writer ada) = Some ada
  /\ user (fst (@handleCredentialResponse plain writer "h.p.s"
                  (initialState false) noStorage))
     = Some ada.
Proof.
  assert (Hblob : @JSON_stringify_user writer ada <> "") by discriminate.
  split; [reflexivity |]. split; [exact Hblob |]. split; [reflexivity |].
  exact (proj1 (@sign_in_restored_until_logout plain writer "h.p.s"
                  (initialState false) (initialState false) noStorage
                  _ eq_refl Hblob eq_refl)).
Defined.

Lemma split_no_separator (sep : ascii) (s : string) :
  forallb (fun c => negb (Ascii.eqb c sep)) (list_ascii_of_string s) = true ->
  split sep s = [s].
Proof.
  induction s as [| c r IH]; simpl; [reflexivity |].
  intros Hall. apply andb_true_iff in Hall. destruct Hall as [Hc Hr].
  apply negb_true_iff in Hc. rewrite Hc, (IH Hr). reflexivity.
Qed.

(** X24. A credential with no dot in it signs nobody in: [parseJwt] throws
    before it decodes anything, and [handleCredentialResponse] leaves the
    state and the storage as they are. *)
Theorem credential_without_dot `{JwtBuiltins} `{JsonWriter}
    (credential : string) (st : AppState) (b : Storages) :
  forallb (fun c => negb (Ascii.eqb c ".")) (list_ascii_of_string credential)
  = true ->
  parseJwt credential = None
  /\ handleCredentialResponse credential st b = (st, b).
Proof.
  intros Hnodot.
  assert (Hjwt : parseJwt credential = None).
  { unfold parseJwt. now rewrite (split_no_separator _ _ Hnodot). }
  split; [exact Hjwt |]. unfold handleCredentialResponse. now rewrite Hjwt.
Qed.

Lemma credential_without_dot_witness :
  forallb (fun c => negb (Ascii.eqb c ".")) (list_ascii_of_string "garbage")
  = true
  /\ @handleCredentialResponse plain writer "garbage" (initialState false)
       noStorage
     = (initialState false, noStorage).
Proof.
  split; [reflexivity |].
  exact (proj2 (@credential_without_dot plain writer "garbage"
                  (initialState false) noStorage eq_refl)).
Defined.

(** X25. The payload is percent-encoded byte by byte: every character
    becomes "%" and exactly two lower-case hexadecimal digits, the high
    and the low half of its code, so the encoded text is three times as
    long as the decoded one. *)
Theorem percentEncode_two_digits :
  (forall c, percentOf c
             = String "%" (String (hexDigit (nat_of_ascii c / 16))
                             (String (hexDigit (nat_of_ascii c mod 16))
                                EmptyString)))
  /\ (forall s, String.length (percentEncode s) = (3 * String.length s)%nat).
Proof.
  assert (Hc : forall c, percentOf c
             = String "%" (String (hexDigit (nat_of_ascii c / 16))
                             (String (hexDigit (nat_of_ascii c mod 16))
                                EmptyString))).
  { intros c. destruct c as [[] [] [] [] [] [] [] []]; reflexivity. }
  split; [exact Hc |].
  induction s as [| c r IH]; [reflexivity |].
  change (percentEncode (String c r)) with (percentOf c ++ percentEncode r).
  rewrite Hc, length_append, IH. simpl. lia.
Qed.

(** ** The title, through the handler *)

Lemma turnTitle_rule (userText : string) :
  turnTitle userText
  = if (30 <? String.length userText)%nat
    then substring 0 30 userText ++ "..."
    else userText.
Proof.
  unfold turnTitle.
  destruct (30 <? Z.of_nat (String.length userText)) eqn:E1;
    destruct (30 <? String.length userText)%nat eqn:E2; try reflexivity.
  - apply Z.ltb_lt in E1. apply Nat.ltb_ge in E2. lia.
  - apply Z.ltb_ge in E1. apply Nat.ltb_lt in E2. lia.
Qed.

Lemma submitTurn_passes `{ChatService} (uuid1 uuid2 : string) (now : Z)
    (st : AppState) :
  (Js.trim (inputText st) =? "")%string || isLoading st
  || negb (Js.truthy (currentSessionId st)) = false ->
  exists st1 p,
    submitTurn uuid1 uuid2 now st = (st1, Some p)
    /\ sessions st1
       = onCurrent (currentSessionId st)
           (submitUpdate (Js.trim (inputText st)) now
              (userMsg uuid1 (Js.trim (inputText st))) (thinkingMsg uuid2))
           (sessions st).
Proof.
  intros Hguard. unfold submitTurn. rewrite Hguard.
  destruct (sendMessageToGemini _ _ _) as [result chat].
  eexists; eexists. split; reflexivity.
Qed.

(** What one operation does to a session that stays: it keeps the id, it
    removes no message, and it keeps the title once the session holds two
    messages. *)
Lemma step_title_frozen `{ChatService} `{JsonParser} (op : Op) (st : AppState)
    (s' : ChatSession) :
  In s' (sessions (step op st)) ->
  In s' (introduced op)
  \/ exists s, In s (sessions st) /\ id s' = id s
               /\ (List.length (messages s) <= List.length (messages s'))%nat
               /\ ((2 <= List.length (messages s))%nat ->
                   session_title s' = session_title s).
Proof.
  assert (Hself : In s' (sessions st) ->
            exists s, In s (sessions st) /\ id s' = id s
               /\ (List.length (messages s) <= List.length (messages s'))%nat
               /\ ((2 <= List.length (messages s))%nat ->
                   session_title s' = session_title s)).
  { intros Hin. exists s'. now repeat split. }
  destruct op as [who | jsonString newId t0 t1 | newId t0 t1 | sid newId t0 t1
                 | sid | | input | uuid1 uuid2 now | p]; cbn [step introduced].
  - rewrite identify_sessions. intros Hin. right. now apply Hself.
  - destruct (loggedOut st); [intros Hin; right; now apply Hself |].
    unfold parseAndLoadSessions.
    destruct (Js.truthy jsonString).
    + destruct (Js.chain jsonString JSON_parse) as [parsed |].
      * destruct (0 <? Z.of_nat (List.length parsed)).
        -- cbv zeta.
           destruct (Js.sort byLastUpdatedDesc parsed) as [| m r] eqn:Es; simpl.
           ++ intros [].
           ++ intros Hin. left. apply in_or_app. left.
              apply (sort_In byLastUpdatedDesc). now rewrite Es.
        -- rewrite createNewSession_sessions. simpl.
           intros [<- | Hin]; left; apply in_or_app; [right; now left | now left].
      * rewrite createNewSession_sessions. simpl.
        intros [<- | Hin]; [left; now left | right; now apply Hself].
    + rewrite createNewSession_sessions.
      intros [<- | Hin]; [left; apply in_or_app; right; now left |].
      right. now apply Hself.
  - rewrite createNewSession_sessions.
    intros [<- | Hin]; [left; now left | right; now apply Hself].
  - rewrite deleteSession_sessions. cbv zeta.
    assert (Hfilter : In s' (filter (fun s => negb (id s =? sid)%string)
                               (sessions st)) -> In s' (sessions st)).
    { intros Hin. now apply filter_In in Hin. }
    destruct (isCurrent sid (currentSessionId st));
      [| intros Hin; right; now apply Hself, Hfilter].
    destruct (filter _ (sessions st)) as [| first rest].
    + intros [<- | []]. left. now left.
    + intros Hin. right. now apply Hself, Hfilter.
  - unfold onSelectSession. intros Hin. right. apply Hself.
    destruct (find _ (sessions st)); destruct (isMobile st); exact Hin.
  - intros [].
  - intros Hin. right. now apply Hself.
  - unfold submitTurn.
    destruct ((Js.trim (inputText st) =? "")%string || isLoading st
              || negb (Js.truthy (currentSessionId st)));
      [intros Hin; right; now apply Hself |].
    destruct (sendMessageToGemini _ _ _) as [result chat]. simpl.
    unfold onCurrent. intros Hin. apply in_map_iff in Hin.
    destruct Hin as [s [<- Hs]]. right. exists s. split; [assumption |].
    destruct (isCurrent (id s) (currentSessionId st)); [| now repeat split].
    simpl. rewrite length_app. simpl. repeat split; [lia |].
    intros Hlen. destruct (Z.of_nat (List.length (messages s)) <=? 1) eqn:E;
      [apply Z.leb_le in E; lia | reflexivity].
  - rewrite settleTurn_sessions. unfold onCurrent. intros Hin.
    apply in_map_iff in Hin. destruct Hin as [s [<- Hs]]. right. exists s.
    split; [assumption |].
    destruct (isCurrent (id s) (turn_session p)); [| now repeat split].
    simpl. rewrite length_map. now repeat split.
Qed.

(** The same through any operations, one after the other. *)
Lemma steps_title_frozen `{ChatService} `{JsonParser} (ops : list Op)
    (st : AppState) (s' : ChatSession) :
  In s' (sessions (fold_left (fun a op => step op a) ops st)) ->
  In (id s') (map id (flat_map introduced ops))
  \/ exists s, In s (sessions st) /\ id s' = id s
               /\ (List.length (messages s) <= List.length (messages s'))%nat
               /\ ((2 <= List.length (messages s))%nat ->
                   session_title s' = session_title s).
Proof.
  revert st; induction ops as [| op ops IH]; intros st Hin; simpl in *.
  - right. exists s'. now repeat split.
  - rewrite map_app, in_app_iff.
    destruct (IH (step op st) Hin) as [Hnew | [s1 [Hs1 [Hid [Hlen Htitle]]]]];
      [left; now right |].
    destruct (step_title_frozen op st s1 Hs1)
      as [Hnew | [s [Hs [Hid0 [Hlen0 Htitle0]]]]].
    + left. left. rewrite Hid. now apply in_map.
    + right. exists s. split; [assumption |]. split; [congruence |].
      split; [lia |]. intros H2. rewrite Htitle by lia. now apply Htitle0.
Qed.

(** C5. The title of a session is set by its first user turn, and then
    only. When [handleSendMessage] submits a turn, each active session
    that holds its welcome message at most gets its title from the text
    that is sent, the trimmed input: the first 30 characters and three
    dots when the text is longer than 30, the text itself otherwise; every
    other session keeps its title, and so it is after the whole turn. The
    session then holds two messages or more, and whatever operations
    follow, turns submitted and settled among them, a session that stays
    in the store (it has the id and at least the messages it had) has the
    title it had; the other sessions are those the operations created or
    loaded. *)
Theorem title_set_by_first_turn `{ChatService} `{JsonParser}
    (uuid1 uuid2 : string) (now : Z) (st : AppState) (ops : list Op) :
  (Js.trim (inputText st) =? "")%string || isLoading st
  || negb (Js.truthy (currentSessionId st)) = false ->
  let userText := Js.trim (inputText st) in
  let st1 := step (OpSubmit uuid1 uuid2 now) st in
  let titled :=
    map (fun s =>
           (id s,
            if isCurrent (id s) (currentSessionId st)
               && (List.length (messages s) <=? 1)%nat
            then (if (30 <? String.length userText)%nat
                  then substring 0 30 userText ++ "..."
                  else userText)
            else session_title s))
        (sessions st) in
  map (fun s => (id s, session_title s)) (sessions st1) = titled
  /\ map (fun s => (id s, session_title s))
         (sessions (handleSendMessage uuid1 uuid2 now st)) = titled
  /\ (forall s1, In s1 (sessions st1) ->
        isCurrent (id s1) (currentSessionId st) = true ->
        (2 <= List.length (messages s1))%nat)
  /\ (forall s', In s' (sessions (fold_left (fun a op => step op a) ops st1)) ->
        In (id s') (map id (flat_map introduced ops))
        \/ exists s1, In s1 (sessions st1) /\ id s' = id s1
                      /\ (List.length (messages s1) <= List.length (messages s'))%nat
                      /\ ((2 <= List.length (messages s1))%nat ->
                          session_title s' = session_title s1)).
Proof.
  intros Hguard userText st1 titled.
  destruct (submitTurn_passes uuid1 uuid2 now st Hguard) as [st1' [p [Hsub Hs1]]].
  assert (Hst1 : st1 = st1') by (unfold st1; cbn [step]; now rewrite Hsub).
  assert (Htitled : map (fun s => (id s, session_title s)) (sessions st1) = titled).
  { rewrite Hst1, Hs1. unfold titled, onCurrent. rewrite map_map.
    apply map_ext. intros s.
    destruct (isCurrent (id s) (currentSessionId st)); [| reflexivity].
    simpl. rewrite turnTitle_rule. fold userText.
    destruct (Z.of_nat (List.length (messages s)) <=? 1) eqn:E1;
      destruct (List.length (messages s) <=? 1)%nat eqn:E2; try reflexivity.
    - apply Z.leb_le in E1. apply Nat.leb_gt in E2. lia.
    - apply Z.leb_gt in E1. apply Nat.leb_le in E2. lia. }
  split; [exact Htitled |]. split; [| split].
  - unfold handleSendMessage. rewrite Hsub, <- Htitled, Hst1.
    apply (settleTurn_keeps session_title). reflexivity.
  - rewrite Hst1, Hs1. unfold onCurrent. intros s1 Hin Hcur.
    apply in_map_iff in Hin. destruct Hin as [s [<- Hs]].
    destruct (isCurrent (id s) (currentSessionId st)) eqn:Ec.
    + simpl. rewrite length_app. simpl. lia.
    + congruence.
  - intros s'. apply steps_title_frozen.
Qed.

Lemma title_set_by_first_turn_witness :
  (Js.trim (inputText guestStore) =? "")%string || isLoading guestStore
  || negb (Js.truthy (currentSessionId guestStore)) = false
  /\ map (fun s => (id s, session_title s))
         (sessions (@handleSendMessage offline "m1" "m2" 2000 guestStore))
     = map (fun s =>
              (id s,
               if isCurrent (id s) (currentSessionId guestStore)
                  && (List.length (messages s) <=? 1)%nat
               then (if (30 <? String.length (Js.trim (inputText guestStore)))%nat
                     then substring 0 30 (Js.trim (inputText guestStore)) ++ "..."
                     else Js.trim (inputText guestStore))
               else session_title s))
           (sessions guestStore).
Proof.
  split; [reflexivity |].
  exact (proj1 (proj2 (@title_set_by_first_turn offline noParse "m1" "m2" 2000
                         guestStore [] eq_refl))).
Defined.

(** Two turns of the guest, the first with a long question: the title is
    cut from the first, and the second leaves it. *)
Example title_after_two_turns :
  let long :=
    setInputText "  Show me some 1-bedroom apartments in Sukhumvit  " guestStore in
  let st2 :=
    fold_left (fun a op => @step offline noParse op a)
      [OpSubmit "m1" "m2" 2000;
       OpSettle {| turn_session := Some "s1"; thinkingMsgId := "m2";
                   outcome := Fulfilled {| reply_text := APOLOGY;
                                           reply_places := [] |} |};
       OpType "hotels";
       OpSubmit "m3" "m4" 3000]
      long in
  map session_title (sessions long) = ["New Search"]
  /\ map session_title (sessions st2) = ["Show me some 1-bedroom apartme..."]
  /\ map (fun s => List.length (messages s)) (sessions st2) = [5%nat].
Proof. repeat split. Qed.
